(** * Streak computation engine of github-readme-stats-fast

    A shallow embedding of [src/fetchers/streak-fetcher.js] in its two
    versions: the current one, whose current-streak walk has a one-day
    grace period, and the earlier one (module [Legacy]), which walks the
    recorded dates only.

    Representation.
    - A calendar date is the number of its UTC day, counted from
      1970-01-01 (day 0).  The source holds dates as the ISO strings
      [YYYY-MM-DD] that the upstream calendar emits; for the four-digit
      years of that calendar the order of the strings is the order of the
      day numbers, [new Date(s)] is UTC midnight of the day, and
      [toISOString().split("T")[0]] gives the string back.
    - A contribution count is an integer ([Z]); the upstream calendar only
      emits non-negative ones, which [series_wf] records.  Sums stay far
      below 2^53, where the numbers of the source are exact.
    - The [contributions] object is a finite map from dates to counts. *)

From stdpp Require Import gmap sorting list strings pretty.
From Stdlib Require Import ZArith Lia.

Local Open Scope Z_scope.

(** ** Dates and the clock *)

(** [1000 * 60 * 60 * 24], the milliseconds of a day. *)
Definition MS_PER_DAY : Z := 1000 * 60 * 60 * 24.

(** [new Date(dateString)] for a date-only ISO string: the time value, in
    milliseconds, of UTC midnight of that day. *)
Definition dateMs (d : Z) : Z := d * MS_PER_DAY.

(** [new Date(Date.UTC(now.getUTCFullYear(), now.getUTCMonth(),
    now.getUTCDate())).toISOString().split("T")[0]]: the UTC day that holds
    the instant [now] (milliseconds since the epoch). *)
Definition utcToday (now : Z) : Z := now `div` MS_PER_DAY.

(** [Date.UTC(..., now.getUTCDate() - 1)], as a date: day 0 of a month
    rolls over to the last day of the month before. *)
Definition utcYesterday (now : Z) : Z := utcToday now - 1.

(** ** DateFormatter *)

(** The civil date (year, month 1..12, day 1..31) of a day number, in the
    proleptic Gregorian calendar; this is what [Date] computes for a time
    value. *)
Definition civilFromDays (days : Z) : Z * Z * Z :=
  let z := days + 719468 in
  let era := z `div` 146097 in
  let doe := z - era * 146097 in
  let yoe := (doe - doe `div` 1460 + doe `div` 36524 - doe `div` 146096) `div` 365 in
  let doy := doe - (365 * yoe + yoe `div` 4 - yoe `div` 100) in
  let mp := (5 * doy + 2) `div` 153 in
  let d := doy - (153 * mp + 2) `div` 5 + 1 in
  let m := if mp <? 10 then mp + 3 else mp - 9 in
  let y := yoe + era * 400 + (if m <=? 2 then 1 else 0) in
  (y, m, d).

(** The [en-US] short month names. *)
Definition monthShort (m : Z) : string :=
  match m with
  | 1 => "Jan" | 2 => "Feb" | 3 => "Mar" | 4 => "Apr"
  | 5 => "May" | 6 => "Jun" | 7 => "Jul" | 8 => "Aug"
  | 9 => "Sep" | 10 => "Oct" | 11 => "Nov" | _ => "Dec"
  end.

(** [formatDateForDisplay(dateString, includeYear)].  A null date gives the
    empty string.  [toLocaleDateString] is taken in a host whose time zone
    is UTC, the zone the dates are computed in. *)
Definition formatDateForDisplay (dateString : option Z) (includeYear : bool)
  : string :=
  match dateString with
  | None => ""
  | Some d =>
      let '(y, m, dd) := civilFromDays d in
      if includeYear
      then monthShort m +:+ " " +:+ pretty dd +:+ ", " +:+ pretty y
      else monthShort m +:+ " " +:+ pretty dd
  end.

(** ** The activity series *)

(** Counts are never negative in a series the upstream calendar produced. *)
Definition series_wf (contributions : gmap Z Z) : Prop :=
  map_Forall (λ _ count, 0 ≤ count) contributions.

(** [Object.keys(contributions).sort()]. *)
Definition sortedDates (contributions : gmap Z Z) : list Z :=
  merge_sort Z.le (map_to_list contributions).*1.

(** [count > 0] for a value read out of the object.  A missing key reads
    as [undefined], and [undefined > 0] is false, so this one test also is
    [count !== undefined && count > 0]. *)
Definition positive_count (count : option Z) : bool :=
  match count with
  | Some c => 0 <? c
  | None => false
  end.

(** [contributions[key] || 0]. *)
Definition countOrZero (contributions : gmap Z Z) (key : Z) : Z :=
  default 0 (contributions !! key).

(** ** StreakCalculator *)

(** The first loop: the earliest date with a positive count. *)
Fixpoint findFirstContribution (contributions : gmap Z Z) (dates : list Z)
  : option Z :=
  match dates with
  | [] => None
  | date :: rest =>
      if positive_count (contributions !! date) then Some date
      else findFirstContribution contributions rest
  end.

(** [totalContributions += contributions[date]] over the dates.  Every
    date of the loop is a key of the object, so the read is defined. *)
Definition sumContributions (contributions : gmap Z Z) (dates : list Z) : Z :=
  foldl (λ total date, total + countOrZero contributions date) 0 dates.

(** The anchor of the current streak: today, or yesterday when today has
    no contribution, or null. *)
Definition startDate (contributions : gmap Z Z) (today yesterday : Z)
  : option Z :=
  let todayCount := countOrZero contributions today in
  let yesterdayCount := countOrZero contributions yesterday in
  if 0 <? todayCount then Some today
  else if 0 <? yesterdayCount then Some yesterday
  else None.

(** The variables of the backward walk. *)
Module Walk.
Record state := State {
  checkDate : Z;
  currentStreak : Z;
  currentStreakStart : option Z;
  currentStreakEnd : option Z;
}.

Definition init (anchor : Z) : state :=
  State anchor 0 None None.

(** One turn of the [while (true)] loop: the next state, or [None] at
    the [break]. *)
Definition body (contributions : gmap Z Z) (s : state) : option state :=
  let dateStr := checkDate s in
  let count := contributions !! dateStr in
  if positive_count count then
    Some {| checkDate := dateStr - 1;
            currentStreak := currentStreak s + 1;
            currentStreakStart := Some dateStr;
            currentStreakEnd :=
              match currentStreakEnd s with
              | None => Some dateStr
              | Some e => Some e
              end |}
  else None.

(** The loop, on a budget of turns: [None] when the budget is used up
    before the [break]. *)
Fixpoint loop (fuel : nat) (contributions : gmap Z Z) (s : state)
  : option state :=
  match fuel with
  | O => None
  | S fuel' =>
      match body contributions s with
      | Some s' => loop fuel' contributions s'
      | None => Some s
      end
  end.
End Walk.

(** The variables of the longest-streak pass. *)
Module Scan.
Record state := State {
  tempStreak : Z;
  prevDate : option Z;
  tempStreakStart : option Z;
  longestStreak : Z;
  longestStreakStart : option Z;
  longestStreakEnd : option Z;
}.

Definition init : state := State 0 None None 0 None None.

(** [(new Date(date) - new Date(prevDate)) / (1000*60*60*24) === 1] *)
Definition nextDay (prev date : Z) : bool :=
  dateMs date - dateMs prev =? 1 * MS_PER_DAY.

(** The body of the [for] loop at [date]. *)
Definition body (contributions : gmap Z Z) (s : state) (date : Z) : state :=
  let count := contributions !! date in
  if positive_count count then
    let '(temp, tempStart) :=
      if match prevDate s with
         | None => true
         | Some prev => nextDay prev date
         end
      then (tempStreak s + 1,
            if tempStreak s =? 0 then Some date else tempStreakStart s)
      else (1, Some date) in
    if longestStreak s <? temp then
      State temp (Some date) tempStart temp tempStart (Some date)
    else
      State temp (Some date) tempStart
        (longestStreak s) (longestStreakStart s) (longestStreakEnd s)
  else
    State 0 (Some date) (tempStreakStart s)
      (longestStreak s) (longestStreakStart s) (longestStreakEnd s).

Definition run (contributions : gmap Z Z) (dates : list Z) : state :=
  foldl (body contributions) init dates.
End Scan.

(** The values of the result before they are formatted for display. *)
Record StreakData := MkStreakData {
  currentStreak : Z;
  longestStreak : Z;
  totalContributions : Z;
  firstContribution : option Z;
  currentStreakStart : option Z;
  currentStreakEnd : option Z;
  longestStreakStart : option Z;
  longestStreakEnd : option Z;
}.

(** The object [calculateStreaks] returns. *)
Record StreakResult := {
  r_currentStreak : Z;
  r_longestStreak : Z;
  r_totalContributions : Z;
  r_firstContribution : string;
  r_currentStreakStart : string;
  r_currentStreakEnd : string;
  r_longestStreakStart : string;
  r_longestStreakEnd : string;
}.

(** The return statement: only the first contribution shows its year. *)
Definition display (d : StreakData) : StreakResult :=
  {| r_currentStreak := currentStreak d;
     r_longestStreak := longestStreak d;
     r_totalContributions := totalContributions d;
     r_firstContribution := formatDateForDisplay (firstContribution d) true;
     r_currentStreakStart := formatDateForDisplay (currentStreakStart d) false;
     r_currentStreakEnd := formatDateForDisplay (currentStreakEnd d) false;
     r_longestStreakStart := formatDateForDisplay (longestStreakStart d) false;
     r_longestStreakEnd := formatDateForDisplay (longestStreakEnd d) false |}.

(** The current-streak block: no walk without an anchor. *)
Definition currentStreakWalk (fuel : nat) (contributions : gmap Z Z)
    (anchor : option Z) : option Walk.state :=
  match anchor with
  | Some start => Walk.loop fuel contributions (Walk.init start)
  | None => Some (Walk.State 0 0 None None)
  end.

(** [calculateStreaks(contributions)] up to the return statement, at the
    instant [now] the clock shows, with [fuel] turns for the walk. *)
Definition streakData (fuel : nat) (contributions : gmap Z Z) (now : Z)
  : option StreakData :=
  let dates := sortedDates contributions in
  let first := findFirstContribution contributions dates in
  let today := utcToday now in
  let yesterday := utcYesterday now in
  let total := sumContributions contributions dates in
  let anchor := startDate contributions today yesterday in
  match currentStreakWalk fuel contributions anchor with
  | None => None
  | Some w =>
      let s := Scan.run contributions dates in
      Some {| currentStreak := Walk.currentStreak w;
              longestStreak := Scan.longestStreak s;
              totalContributions := total;
              firstContribution := first;
              currentStreakStart := Walk.currentStreakStart w;
              currentStreakEnd := Walk.currentStreakEnd w;
              longestStreakStart := Scan.longestStreakStart s;
              longestStreakEnd := Scan.longestStreakEnd s |}
  end.

(** The walk counts each date at most once and every counted date is a key
    of the object, so one turn per key and one for the [break] are
    enough. *)
Definition walkBudget (contributions : gmap Z Z) : nat :=
  S (size contributions).

Definition calculateStreaksData (contributions : gmap Z Z) (now : Z)
  : option StreakData :=
  streakData (walkBudget contributions) contributions now.

Definition calculateStreaks (contributions : gmap Z Z) (now : Z)
  : option StreakResult :=
  display <$> calculateStreaksData contributions now.

(** *** The clock

    A run reads the clock through [new Date()]; the [k]-th reading of a run
    shows [clock k], so the readings of one run may differ.  A clocked
    computation returns its value with the number of readings made. *)
Definition Clocked (A : Type) : Type := (nat → Z) → nat → A * nat.

Definition readClock : Clocked Z := λ clock k, (clock k, S k).

(** [calculateStreaks(contributions)]: [const now = new Date()] is the one
    reading; [today] and [yesterday] both come from it. *)
Definition calculateStreaksClocked (contributions : gmap Z Z)
  : Clocked (option StreakResult) :=
  λ clock k,
    let '(now, k') := readClock clock k in
    (calculateStreaks contributions now, k').

(** ** The earlier version of the calculator

    [calculateStreaks] as [src/fetchers/streak-fetcher.js] has it: the same
    first-contribution, total and longest-streak code, and a current-streak
    loop that goes down the recorded dates, without anchor and without
    yesterday. *)
Module Legacy.
Record state := State {
  currentStreak : Z;
  currentStreakStart : option Z;
  currentStreakEnd : option Z;
  streaking : bool;
}.

Definition init : state := State 0 None None true.

(** The body of [for (let i = dates.length - 1; i >= 0; i--)]. *)
Definition body (contributions : gmap Z Z) (today : Z) (s : state)
    (date : Z) : state :=
  let count := contributions !! date in
  if today <? date then s
  else if streaking s then
    if positive_count count then
      State (currentStreak s + 1) (Some date)
        (match currentStreakEnd s with
         | None => Some date
         | Some e => Some e
         end)
        (streaking s)
    else if (date =? today) || (date <? today) then
      State (currentStreak s) (currentStreakStart s) (currentStreakEnd s)
        false
    else s
  else s.

Definition run (contributions : gmap Z Z) (today : Z) (dates : list Z)
  : state :=
  foldl (body contributions today) init (reverse dates).

Definition calculateStreaksData (contributions : gmap Z Z) (now : Z)
  : StreakData :=
  let dates := sortedDates contributions in
  let first := findFirstContribution contributions dates in
  let today := utcToday now in
  let total := sumContributions contributions dates in
  let w := run contributions today dates in
  let s := Scan.run contributions dates in
  MkStreakData
    (currentStreak w) (Scan.longestStreak s) total first
    (currentStreakStart w) (currentStreakEnd w)
    (Scan.longestStreakStart s) (Scan.longestStreakEnd s).

Definition calculateStreaks (contributions : gmap Z Z) (now : Z)
  : StreakResult :=
  display (calculateStreaksData contributions now).

Definition calculateStreaksClocked (contributions : gmap Z Z)
  : Clocked StreakResult :=
  λ clock k,
    let '(now, k') := readClock clock k in
    (calculateStreaks contributions now, k').
End Legacy.

(** ** CalendarAggregator *)

(** A day of the upstream calendar: [{ date, contributionCount }]. *)
Record ContributionDay := {
  date : Z;
  contributionCount : Z;
}.

(** A week of the calendar: [{ contributionDays }]. *)
Record Week := {
  contributionDays : list ContributionDay;
}.

(** [contributions[day.date] = day.contributionCount] over a list of
    days. *)
Definition recordDays (contributions : gmap Z Z) (days : list ContributionDay)
  : gmap Z Z :=
  foldl (λ c day, <[date day := contributionCount day]> c) contributions days.

(** The loop over the weeks of a year. *)
Definition recordWeeks (contributions : gmap Z Z) (weeks : list Week)
  : gmap Z Z :=
  foldl (λ c week, recordDays c (contributionDays week)) contributions weeks.

(** What the answer holds under the alias of a year:
    [yearData?.contributionCalendar?.weeks], which is missing when a link
    of the chain is. *)
Record YearData := {
  calendarWeeks : option (list Week);
}.

(** The loop of [fetchAllYearsCalendar] that combines the years of the
    answer [user] into one map; [user !! year] is [user[`y${year}`]]. *)
Definition combineYears (user : gmap Z YearData) (years : list Z)
  : gmap Z Z :=
  foldl (λ contributions year,
           match user !! year ≫= calendarWeeks with
           | Some weeks => recordWeeks contributions weeks
           | None => contributions
           end) ∅ years.

(** The day observations in the order the loop meets them. *)
Definition observations (user : gmap Z YearData) (years : list Z)
  : list ContributionDay :=
  year ← years;
  match user !! year ≫= calendarWeeks with
  | Some weeks => week ← weeks; contributionDays week
  | None => []
  end.

(** The count of the last observation of a date, if there is one. *)
Fixpoint lastCount (d : Z) (days : list ContributionDay) : option Z :=
  match days with
  | [] => None
  | day :: rest =>
      match lastCount d rest with
      | Some c => Some c
      | None => if decide (date day = d) then Some (contributionCount day)
                else None
      end
  end.

(** ** Failures and the upstream *)

(** Modelled from the spec: the class [CustomError] of [common/utils.js]
    is not among the sources.  A failure is tagged, and carries a primary
    message and an optional secondary one; the two tags are the ones
    [fetchStreak] and its helpers use. *)
Inductive ErrorType := USER_NOT_FOUND | GRAPHQL_ERROR.

(** Modelled from the spec: an instance of [CustomError], with the
    [message] and the [secondaryMessage] its callers read and the tag it
    was built with. *)
Record CustomError := {
  message : string;
  type : ErrorType;
  secondaryMessage : option string;
}.

(** A value that is thrown: a [CustomError], or anything else (an error of
    the network layer with its message, or a value without one). *)
Inductive Thrown :=
  | ThrownCustom (e : CustomError)
  | ThrownOther (msg : option string).

(** [err?.message] *)
Definition thrownMessage (err : Thrown) : option string :=
  match err with
  | ThrownCustom e => Some (message e)
  | ThrownOther msg => msg
  end.

(** [value || fallback] for a string that may be missing; the empty string
    is falsy too. *)
Definition orString (value : option string) (fallback : string) : string :=
  match value with
  | Some s => if String.eqb s "" then fallback else s
  | None => fallback
  end.

(** What surrounds a run: the table of secondary messages of
    [CustomError], the answers of the upstream ([None] for an answer
    without [user]), and the instant the clock shows. *)
Record Env := {
  secondaryMessages : ErrorType → option string;
  yearsAnswer : string → string → Thrown + option (list Z);
  calendarsAnswer :
    string → list Z → string → Thrown + option (gmap Z YearData);
  yearAnswer : string → Z → string → Thrown + option (list Week);
  clockNow : Z;
}.

(** [new CustomError(message, type)] *)
Definition newCustomError (env : Env) (msg : string) (t : ErrorType)
  : CustomError :=
  {| message := msg; type := t; secondaryMessage := secondaryMessages env t |}.

(** How a call ends. *)
Inductive outcome (A : Type) :=
  | Returned (a : A)
  | Threw (err : Thrown)
  | Diverged.
Arguments Returned {A} a.
Arguments Threw {A} err.
Arguments Diverged {A}.

(** A computation that may send requests upstream: it takes and gives
    back the number of requests sent so far. *)
Definition Fetch (A : Type) : Type := nat → outcome A * nat.

Definition ret {A} (a : A) : Fetch A := λ n, (Returned a, n).

Definition throw {A} (err : Thrown) : Fetch A := λ n, (Threw err, n).

Definition bind {A B} (c : Fetch A) (k : A → Fetch B) : Fetch B :=
  λ n,
    match c n with
    | (Returned a, n') => k a n'
    | (Threw err, n') => (Threw err, n')
    | (Diverged, n') => (Diverged, n')
    end.

(** [try { c } catch (err) { handler }] *)
Definition tryCatch {A} (c : Fetch A) (handler : Thrown → Fetch A) : Fetch A :=
  λ n,
    match c n with
    | (Threw err, n') => handler err n'
    | r => r
    end.

(** [await request(...)], given the answer of the upstream; [request] of
    [common/utils.js] is not among the sources, and a request counts as
    sent whether it is answered or fails. *)
Definition request {R} (answer : Thrown + R) : Fetch R :=
  λ n,
    match answer with
    | inl err => (Threw err, S n)
    | inr res => (Returned res, S n)
    end.

(** A call that returns when it has a result. *)
Definition returning {A} (result : option A) : Fetch A :=
  λ n,
    match result with
    | Some a => (Returned a, n)
    | None => (Diverged, n)
    end.

Notation "'let!' x ':=' c 'in' k" := (bind c (λ x, k))
  (at level 10, x name, c at level 100, k at level 200).

Definition fetchContributionYears (env : Env) (username token : string)
  : Fetch (list Z) :=
  let! res := request (yearsAnswer env username token) in
  match res with
  | None =>
      throw (ThrownCustom
               (newCustomError env "Could not fetch user." USER_NOT_FOUND))
  | Some contributionYears => ret contributionYears
  end.

Definition fetchAllYearsCalendar (env : Env) (username : string)
    (years : list Z) (token : string) : Fetch (gmap Z Z) :=
  let! res := request (calendarsAnswer env username years token) in
  match res with
  | None =>
      throw (ThrownCustom
               (newCustomError env "Could not fetch user." USER_NOT_FOUND))
  | Some user => ret (combineYears user years)
  end.

(** [!username]: the identifier is missing, or is the empty string. *)
Definition missing (username : option string) : bool :=
  match username with
  | None => true
  | Some u => String.eqb u ""
  end.

(** The [catch] block of [fetchStreak]; its [logger.error(err)] has no part
    in what the caller gets. *)
Definition rethrow {A} (env : Env) (err : Thrown) : Fetch A :=
  throw (ThrownCustom
           (newCustomError env
              (orString (thrownMessage err) "Could not fetch streak data.")
              GRAPHQL_ERROR)).

Definition fetchStreak (env : Env) (username : option string)
    (token : string) : Fetch StreakResult :=
  if missing username then
    throw (ThrownCustom
             (newCustomError env "Missing username parameter" USER_NOT_FOUND))
  else
    let user := default "" username in
    tryCatch
      (let! years := fetchContributionYears env user token in
       let! contributions := fetchAllYearsCalendar env user years token in
       returning (calculateStreaks contributions (clockNow env)))
      (rethrow env).

(** The earlier [fetchStreak] asks for the years one at a time. *)
Module LegacyFetch.
Definition fetchYearCalendar (env : Env) (username : string) (year : Z)
    (token : string) : Fetch (list ContributionDay) :=
  let! res := request (yearAnswer env username year token) in
  match res with
  | None =>
      throw (ThrownCustom
               (newCustomError env "Could not fetch user." USER_NOT_FOUND))
  | Some weeks => ret (week ← weeks; contributionDays week)
  end.

(** [for (const year of years)] with the request inside. *)
Fixpoint collectYears (env : Env) (username token : string)
    (years : list Z) (contributions : gmap Z Z) : Fetch (gmap Z Z) :=
  match years with
  | [] => ret contributions
  | year :: rest =>
      let! days := fetchYearCalendar env username year token in
      collectYears env username token rest (recordDays contributions days)
  end.

Definition fetchStreak (env : Env) (username : option string)
    (token : string) : Fetch StreakResult :=
  if missing username then
    throw (ThrownCustom
             (newCustomError env "Missing username parameter"
                USER_NOT_FOUND))
  else
    let user := default "" username in
    tryCatch
      (let! years := fetchContributionYears env user token in
       let! contributions := collectYears env user token years ∅ in
       ret (Legacy.calculateStreaks contributions (clockNow env)))
      (rethrow env).
End LegacyFetch.

(** ** The words of the specification *)

(** A date is present in the series with a positive count. *)
Definition active (contributions : gmap Z Z) (d : Z) : Prop :=
  ∃ count, contributions !! d = Some count ∧ 0 < count.

(** The sum of all counts in the series. *)
Definition seriesTotal (contributions : gmap Z Z) : Z :=
  foldr Z.add 0 (map_to_list contributions).*2.

(** A streak of positive length has both its boundary dates, in order. *)
Definition bounded (len : Z) (first last : option Z) : Prop :=
  0 < len → ∃ s e, first = Some s ∧ last = Some e ∧ s ≤ e.

(** Whether a date is active is read off the series itself: the date is
    recorded and the recorded count is above zero. *)
#[global] Instance active_dec (contributions : gmap Z Z) (d : Z) :
  Decision (active contributions d).
Proof.
  unfold active. destruct (contributions !! d) as [count|].
  - destruct (decide (0 < count)) as [Hpos|Hneg].
    + left. exists count. split; [reflexivity | exact Hpos].
    + right. intros (c & Hc & Hlt). injection Hc as <-. exact (Hneg Hlt).
  - right. intros (c & Hc & _). discriminate Hc.
Defined.

(** The running length after a date: one more than before when the date
    is active and is the day after the date visited before it; 1 when it
    is active and is not; 0 when it is not active. *)
Definition specRunLength (contributions : gmap Z Z) (prev : option Z)
    (temp : Z) (date : Z) : Z :=
  if decide (active contributions date) then
    match prev with
    | Some p => if decide (date - p = 1) then temp + 1 else 1
    | None => 1
    end
  else 0.

(** A step of the pass in those words: the run starts at the date where
    its length is 1, and the best run is replaced exactly when the running
    length exceeds its length. *)
Definition specStep (contributions : gmap Z Z) (s : Scan.state) (date : Z)
  : Scan.state :=
  let temp :=
    specRunLength contributions (Scan.prevDate s) (Scan.tempStreak s) date in
  let tempStart :=
    if decide (temp = 1) then Some date else Scan.tempStreakStart s in
  if decide (Scan.longestStreak s < temp) then
    Scan.State temp (Some date) tempStart temp tempStart (Some date)
  else
    Scan.State temp (Some date) tempStart (Scan.longestStreak s)
      (Scan.longestStreakStart s) (Scan.longestStreakEnd s).

(** What the pass keeps true of its variables. *)
Definition scan_inv (s : Scan.state) : Prop :=
  0 ≤ Scan.tempStreak s ≤ Scan.longestStreak s ∧
  (Scan.prevDate s = None → Scan.tempStreak s = 0) ∧
  (0 < Scan.tempStreak s →
     ∃ st p, Scan.tempStreakStart s = Some st ∧ Scan.prevDate s = Some p ∧
             st ≤ p) ∧
  bounded (Scan.longestStreak s) (Scan.longestStreakStart s)
    (Scan.longestStreakEnd s).

(** What the earlier current-streak loop keeps true of its variables. *)
Definition legacy_inv (s : Legacy.state) : Prop :=
  0 ≤ Legacy.currentStreak s ∧
  (0 < Legacy.currentStreak s → is_Some (Legacy.currentStreakEnd s)) ∧
  (∀ e, Legacy.currentStreakEnd s = Some e →
        ∃ st, Legacy.currentStreakStart s = Some st ∧ st ≤ e).

(** The anchor policy: a streak that ends at today when today is active;
    at the day before when today is not and that day is; no streak
    otherwise. *)
Definition anchor_policy (contributions : gmap Z Z) (today : Z)
    (d : StreakData) : Prop :=
  (active contributions today →
     currentStreakEnd d = Some today ∧ 0 < currentStreak d) ∧
  (¬ active contributions today → active contributions (today - 1) →
     currentStreakEnd d = Some (today - 1) ∧ 0 < currentStreak d) ∧
  (¬ active contributions today → ¬ active contributions (today - 1) →
     currentStreak d = 0 ∧ currentStreakStart d = None ∧
     currentStreakEnd d = None).

(** The counted dates are the [currentStreak d] consecutive days that end
    at the anchor, all of them active, and the day before them is not. *)
Definition contiguous_run (contributions : gmap Z Z) (anchor : option Z)
    (d : StreakData) : Prop :=
  match anchor with
  | None => currentStreak d = 0
  | Some a =>
      0 < currentStreak d ∧
      (∀ x, a - currentStreak d < x ≤ a → active contributions x) ∧
      ¬ active contributions (a - currentStreak d) ∧
      currentStreakStart d = Some (a - currentStreak d + 1) ∧
      currentStreakEnd d = Some a
  end.

(** The observations of one year of the answer. *)
Definition yearObservations (user : gmap Z YearData) (year : Z)
  : list ContributionDay :=
  match user !! year ≫= calendarWeeks with
  | Some weeks => week ← weeks; contributionDays week
  | None => []
  end.

(** The observations the earlier [fetchStreak] meets, year by year, when
    every request is answered. *)
Definition legacyObservations (env : Env) (username token : string)
    (years : list Z) : list ContributionDay :=
  year ← years;
  match yearAnswer env username year token with
  | inr (Some weeks) => week ← weeks; contributionDays week
  | _ => []
  end.

(** The merge policy, over the observations in the order they are met:
    a date no observation has is not in the series, and a date has the
    count of the last observation of it. *)
Definition last_wins (obs : list ContributionDay) (series : gmap Z Z) : Prop :=
  ∀ d,
    ((∀ day, day ∈ obs → date day ≠ d) → series !! d = None) ∧
    (∀ before day after,
       obs = before ++ day :: after → date day = d →
       (∀ x, x ∈ after → date x ≠ d) →
       series !! d = Some (contributionCount day)).

(** ** Sample inputs *)

(** The series of the scenario of the specification: 2024-01-01 is day
    19723. *)
Definition scenario : gmap Z Z :=
  <[19723 := 3]> (<[19724 := 1]> (<[19725 := 0]> (<[19727 := 2]> ∅))).

(** Today (2024-01-05) without a contribution yet, four the day before. *)
Definition graceSeries : gmap Z Z :=
  <[19727 := 0]> (<[19726 := 4]> ∅).

(** The days [first .. last] as the upstream calendar emits them: every
    day of the range, with its count. *)
Definition calendarDays (first last : Z) (count : Z → Z)
  : list ContributionDay :=
  (λ d, {| date := d; contributionCount := count d |})
    <$> seqZ first (last - first + 1).

(** One contribution on 2022-12-31 (day 19357) and one on 2024-01-01 (day
    19723), and none on any other day. *)
Definition yearGapCount (d : Z) : Z :=
  if (d =? 19357) || (d =? 19723) then 1 else 0.

(** The series of that user: the whole calendars of 2022 (days 18993 to
    19357) and of 2024 (days 19723 to 20088).  2023 has no contribution,
    so the upstream does not list the year and no date of it is in the
    series. *)
Definition yearGapSeries : gmap Z Z :=
  recordDays ∅ (calendarDays 19723 20088 yearGapCount
                ++ calendarDays 18993 19357 yearGapCount).

(** An upstream that answers without [user], and one whose request
    fails. *)
Definition noUserEnv : Env :=
  {| secondaryMessages := λ _, None;
     yearsAnswer := λ _ _, inr None;
     calendarsAnswer := λ _ _ _, inr None;
     yearAnswer := λ _ _ _, inr None;
     clockNow := dateMs 19727 |}.

Definition networkDownEnv : Env :=
  {| secondaryMessages := λ _, None;
     yearsAnswer := λ _ _, inl (ThrownOther (Some "Network Error"));
     calendarsAnswer := λ _ _ _, inl (ThrownOther (Some "Network Error"));
     yearAnswer := λ _ _ _, inl (ThrownOther (Some "Network Error"));
     clockNow := dateMs 19727 |}.

(** A clock that moves on by a day at every reading, and one that stands
    still. *)
Definition runningClock (k : nat) : Z := dateMs 19727 + Z.of_nat k * MS_PER_DAY.

Definition stoppedClock (k : nat) : Z := dateMs 19727 + 5000.

(** ** Further words for the calculator *)

(** The days [first .. last] all have a positive count. *)
Definition active_run (contributions : gmap Z Z) (first last : Z) : Prop :=
  ∀ x, first ≤ x ≤ last → active contributions x.

(** What the pass knows of the run it is in and of the best run it has
    seen: each is a stretch of consecutive days with positive counts, as
    long as the length it is recorded with. *)
Definition run_inv (contributions : gmap Z Z) (s : Scan.state) : Prop :=
  0 ≤ Scan.tempStreak s ∧
  0 ≤ Scan.longestStreak s ∧
  (Scan.prevDate s = None → Scan.tempStreak s = 0) ∧
  (0 < Scan.tempStreak s →
     ∃ st p, Scan.tempStreakStart s = Some st ∧ Scan.prevDate s = Some p ∧
             p - st + 1 = Scan.tempStreak s ∧ active_run contributions st p) ∧
  (0 < Scan.longestStreak s →
     ∃ st e, Scan.longestStreakStart s = Some st ∧
             Scan.longestStreakEnd s = Some e ∧
             e - st + 1 = Scan.longestStreak s ∧
             active_run contributions st e).

(** Two series that hold the same for every date up to [today]. *)
Definition agree_until (today : Z) (m1 m2 : gmap Z Z) : Prop :=
  ∀ d, d ≤ today → m1 !! d = m2 !! d.

(** No count of the series is positive. *)
Definition idle (contributions : gmap Z Z) : Prop :=
  map_Forall (λ _ count, count ≤ 0) contributions.

(** Two days without a contribution. *)
Definition quietSeries : gmap Z Z :=
  <[19726 := 0]> (<[19727 := 0]> ∅).

(** The series of the scenario with a contribution dated three days after
    2024-01-05. *)
Definition aheadSeries : gmap Z Z := <[19730 := 7]> scenario.

(** The calendar is complete up to [today]: every day from a recorded
    date up to [today] is recorded too. *)
Definition complete_until (today : Z) (contributions : gmap Z Z) : Prop :=
  ∀ d1 d2, is_Some (contributions !! d1) → d1 ≤ d2 ≤ today →
           is_Some (contributions !! d2).

(** What the earlier current-streak loop keeps true of its boundary
    dates. *)
Definition legacy_dates_inv (s : Legacy.state) : Prop :=
  0 ≤ Legacy.currentStreak s ∧
  (Legacy.currentStreak s = 0 →
     Legacy.currentStreakStart s = None ∧ Legacy.currentStreakEnd s = None) ∧
  (0 < Legacy.currentStreak s →
     is_Some (Legacy.currentStreakStart s) ∧
     is_Some (Legacy.currentStreakEnd s)).

(** What the pass keeps true of the boundary dates of the best run. *)
Definition scan_dates_inv (s : Scan.state) : Prop :=
  0 ≤ Scan.longestStreak s ∧
  (Scan.longestStreak s = 0 →
     Scan.longestStreakStart s = None ∧ Scan.longestStreakEnd s = None) ∧
  (0 < Scan.longestStreak s →
     is_Some (Scan.longestStreakStart s) ∧ is_Some (Scan.longestStreakEnd s)).

(** In a returned record, a boundary string is empty exactly when the
    length of its streak is 0. *)
Definition empty_when_zero (r : StreakResult) : Prop :=
  (r_currentStreakStart r = "" ↔ r_currentStreak r = 0) ∧
  (r_currentStreakEnd r = "" ↔ r_currentStreak r = 0) ∧
  (r_longestStreakStart r = "" ↔ r_longestStreak r = 0) ∧
  (r_longestStreakEnd r = "" ↔ r_longestStreak r = 0).

(** ** Further words for the aggregation *)

(** No date is observed with two different counts. *)
Definition consistent (obs : list ContributionDay) : Prop :=
  ∀ day1 day2, day1 ∈ obs → day2 ∈ obs → date day1 = date day2 →
               contributionCount day1 = contributionCount day2.

(** The answer has a calendar for the year. *)
Definition hasCalendar (user : gmap Z YearData) (year : Z) : Prop :=
  is_Some (user !! year ≫= calendarWeeks).

(** An answer with two years of one day each. *)
Definition twoYears : gmap Z YearData :=
  <[2023 := {| calendarWeeks :=
                 Some [ {| contributionDays :=
                             [ {| date := 19722; contributionCount := 2 |} ] |} ] |}]>
    (<[2024 := {| calendarWeeks :=
                    Some [ {| contributionDays :=
                                [ {| date := 19723; contributionCount := 3 |} ] |} ] |}]>
       ∅).

(** ** Further words for the failures *)

(** What the helpers throw for an answer without [user]. *)
Definition userNotFound (env : Env) : Thrown :=
  ThrownCustom (newCustomError env "Could not fetch user." USER_NOT_FOUND).

(** What the [catch] block of [fetchStreak] throws for [err]. *)
Definition retagged (env : Env) (err : Thrown) : Thrown :=
  ThrownCustom
    (newCustomError env
       (orString (thrownMessage err) "Could not fetch streak data.")
       GRAPHQL_ERROR).

(** Every year of the list is answered with a calendar. *)
Definition allAnswered (env : Env) (username token : string)
    (years : list Z) : Prop :=
  Forall (λ year, ∃ weeks, yearAnswer env username year token
                           = inr (Some weeks)) years.

(** How a call of [fetchStreak] that started after [n] requests may end:
    it returns, or it throws one [CustomError] with a message that is not
    empty and the secondary message of its tag; the tag is
    [USER_NOT_FOUND], with no request sent, when the identifier is missing,
    and [GRAPHQL_ERROR], after at least one request, when it is not. *)
Definition failure_shape (env : Env) (username : option string) (n : nat)
    (res : outcome StreakResult * nat) : Prop :=
  match res with
  | (Returned _, _) => True
  | (Diverged, _) => False
  | (Threw err, n') =>
      ∃ e, err = ThrownCustom e ∧
           message e ≠ "" ∧
           secondaryMessage e = secondaryMessages env (type e) ∧
           if missing username
           then type e = USER_NOT_FOUND ∧ n' = n
           else type e = GRAPHQL_ERROR ∧ (n < n')%nat
  end.

(** An upstream that lists two years and answers every request. *)
Definition answeringEnv : Env :=
  {| secondaryMessages := λ _, None;
     yearsAnswer := λ _ _, inr (Some [2024; 2023]);
     calendarsAnswer := λ _ _ _, inr (Some twoYears);
     yearAnswer := λ _ year _, inr (twoYears !! year ≫= calendarWeeks);
     clockNow := dateMs 19723 |}.

(** ** The request handler

    The handler of the streak endpoint ([src/unnamed/part_000]), around
    either version of [fetchStreak].  The helpers it imports from
    [common/utils.js] and [cards/streak-card.js] are not among the
    sources: they are fields of [Utils]. *)

(** A number of the handler: an integer, or [None] for [NaN]. *)
Definition Num : Type := option Z.

(** The query of the request; a parameter that is not given is [None]. *)
Record Query := {
  q_username : option string;
  q_theme : option string;
  q_hide_border : option string;
  q_title_color : option string;
  q_text_color : option string;
  q_bg_color : option string;
  q_border_color : option string;
  q_cache_seconds : option string;
}.

(** The variables of [process.env] that the handler reads. *)
Record ProcessEnv := {
  PAT_1 : option string;
  GITHUB_TOKEN : option string;
  CACHE_SECONDS : option string;
}.

(** The options object given to [renderError]. *)
Record ErrorOptions := {
  e_title_color : option string;
  e_text_color : option string;
  e_bg_color : option string;
  e_border_color : option string;
  e_theme : option string;
}.

(** The options object given to [renderStreakCard]. *)
Record CardOptions := {
  c_theme : option string;
  c_hide_border : option bool;
  c_title_color : option string;
  c_text_color : option string;
  c_bg_color : option string;
  c_border_color : option string;
}.

(** The helpers and constants the handler imports, which are not among
    the sources, as parameters.  [renderStreakCard] may throw; [parseInt]
    is the one of the language, on a string or a number. *)
Record Utils := {
  renderError : string → option string → ErrorOptions → string;
  renderStreakCard :
    string → StreakResult → CardOptions → Thrown + string;
  parseBoolean : option string → option bool;
  clampValue : Num → Num → Num → Num;
  parseInt : string + Num → Num;
  CARD_CACHE_SECONDS : Num;
  TWO_HOURS : Num;
  ONE_DAY : Num;
  ERROR_CACHE_SECONDS : Num;
}.

(** The value of a header: the two [Cache-Control] values are template
    strings over the numbers kept here. *)
Inductive HeaderValue :=
  | Mime (type : string)
  | CacheSuccess (cacheSeconds : Num)
  | CacheFailure (errorCacheSeconds oneDay : Num).

(** What [res] holds when [res.send] is called: the headers set so far
    and the body sent. *)
Record Response := {
  headers : gmap string HeaderValue;
  body : string;
}.

(** [a || b] on two strings that may be missing. *)
Definition orValue (a b : option string) : option string :=
  if missing a then b else a.

(** The [cacheSeconds] of the handler: the clamped value of the query, or
    [CACHE_SECONDS] of the environment when it parses to a number that is
    not 0. *)
Definition cacheSecondsOf (u : Utils) (p : ProcessEnv) (q : Query) : Num :=
  let cacheSeconds :=
    clampValue u
      (parseInt u
         (if missing (q_cache_seconds q) then inr (CARD_CACHE_SECONDS u)
          else inl (default "" (q_cache_seconds q))))
      (TWO_HOURS u) (ONE_DAY u) in
  if missing (CACHE_SECONDS p) then cacheSeconds
  else
    match parseInt u (inl (default "" (CACHE_SECONDS p))) with
    | Some z => if z =? 0 then cacheSeconds else Some z
    | None => cacheSeconds
    end.

Definition errorOptions (q : Query) : ErrorOptions :=
  {| e_title_color := q_title_color q;
     e_text_color := q_text_color q;
     e_bg_color := q_bg_color q;
     e_border_color := q_border_color q;
     e_theme := q_theme q |}.

Definition cardOptions (u : Utils) (q : Query) : CardOptions :=
  {| c_theme := q_theme q;
     c_hide_border := parseBoolean u (q_hide_border q);
     c_title_color := q_title_color q;
     c_text_color := q_text_color q;
     c_bg_color := q_bg_color q;
     c_border_color := q_border_color q |}.

(** [err.secondaryMessage] *)
Definition thrownSecondary (err : Thrown) : option string :=
  match err with
  | ThrownCustom e => secondaryMessage e
  | ThrownOther _ => None
  end.

(** The [catch] block of the handler, on the headers set so far. *)
Definition sendFailure (u : Utils) (q : Query)
    (hs : gmap string HeaderValue) (err : Thrown) : Response :=
  {| headers :=
       <["Cache-Control" :=
           CacheFailure (ERROR_CACHE_SECONDS u) (ONE_DAY u)]> hs;
     body :=
       renderError u (orString (thrownMessage err) "Something went wrong")
         (thrownSecondary err) (errorOptions q) |}.

(** The handler, around the [fetchStreak] it is given; it gives the
    response sent, or [None] when the call it awaits does not return, and
    the number of requests sent upstream. *)
Definition streakHandler
    (fetch : Env → option string → string → Fetch StreakResult)
    (u : Utils) (p : ProcessEnv) (env : Env) (q : Query)
    (n : nat) : option Response * nat :=
  let hs : gmap string HeaderValue :=
    <["Content-Type" := Mime "image/svg+xml"]> ∅ in
  if missing (q_username q) then
    (Some {| headers := hs;
             body := renderError u "Something went wrong"
                       (Some "Missing `username` parameter")
                       (errorOptions q) |}, n)
  else
    let token := orValue (PAT_1 p) (GITHUB_TOKEN p) in
    if missing token then
      (Some {| headers := hs;
               body := renderError u "Something went wrong"
                         (Some "GitHub token is not configured")
                         (errorOptions q) |}, n)
    else
      match fetch env (q_username q) (default "" token) n with
      | (Returned streak, n') =>
          let hs' :=
            <["Cache-Control" := CacheSuccess (cacheSecondsOf u p q)]> hs in
          match renderStreakCard u (default "" (q_username q)) streak
                  (cardOptions u q) with
          | inr card => (Some {| headers := hs'; body := card |}, n')
          | inl err => (Some (sendFailure u q hs' err), n')
          end
      | (Threw err, n') => (Some (sendFailure u q hs err), n')
      | (Diverged, n') => (None, n')
      end.

(** What a response of the handler that started after [n] requests looks
    like.  It always has the SVG content type.  Without [Cache-Control] it
    is the refusal of a request that lacks the user or the token, and no
    request was sent upstream; with the success value it is the card
    rendered for the record [fetch] returned; with the failure value it is
    the error card of a thrown value, under a message that is not
    empty. *)
Definition handled
    (fetch : Env → option string → string → Fetch StreakResult)
    (u : Utils) (p : ProcessEnv) (env : Env) (q : Query) (n : nat) : Prop :=
  match streakHandler fetch u p env q n with
  | (None, _) => False
  | (Some r, n') =>
      headers r !! "Content-Type" = Some (Mime "image/svg+xml") ∧
      (n ≤ n')%nat ∧
      match headers r !! "Cache-Control" with
      | None =>
          n' = n ∧
          (missing (q_username q) = true ∨
           missing (orValue (PAT_1 p) (GITHUB_TOKEN p)) = true) ∧
          ∃ detail,
            body r = renderError u "Something went wrong" (Some detail)
                       (errorOptions q)
      | Some (CacheSuccess cacheSeconds) =>
          cacheSeconds = cacheSecondsOf u p q ∧
          ∃ streak,
            fetch env (q_username q)
              (default "" (orValue (PAT_1 p) (GITHUB_TOKEN p))) n
              = (Returned streak, n') ∧
            renderStreakCard u (default "" (q_username q)) streak
              (cardOptions u q) = inr (body r)
      | Some (CacheFailure errorSeconds oneDay) =>
          errorSeconds = ERROR_CACHE_SECONDS u ∧ oneDay = ONE_DAY u ∧
          ∃ err,
            orString (thrownMessage err) "Something went wrong" ≠ "" ∧
            body r = renderError u
                       (orString (thrownMessage err) "Something went wrong")
                       (thrownSecondary err) (errorOptions q)
      | Some (Mime _) => False
      end
  end.

(** Helpers that show their arguments and do not throw, a clamp, and a
    [parseInt] that knows numbers only. *)
Definition plainUtils : Utils :=
  {| renderError := λ msg secondary _, msg +:+ " / " +:+ default "" secondary;
     renderStreakCard := λ user streak _, inr (user +:+ " / " +:+ r_currentStreakEnd streak);
     parseBoolean := λ _, None;
     clampValue := λ x lo hi,
       match x, lo, hi with
       | Some x, Some lo, Some hi => Some (Z.max lo (Z.min x hi))
       | _, _, _ => lo
       end;
     parseInt := λ v, match v with inr x => x | inl _ => None end;
     CARD_CACHE_SECONDS := Some 14400;
     TWO_HOURS := Some 7200;
     ONE_DAY := Some 86400;
     ERROR_CACHE_SECONDS := Some 600 |}.

(** A query that names a user and nothing else, and one that names
    nothing. *)
Definition octocatQuery : Query :=
  {| q_username := Some "octocat"; q_theme := None; q_hide_border := None;
     q_title_color := None; q_text_color := None; q_bg_color := None;
     q_border_color := None; q_cache_seconds := None |}.

Definition emptyQuery : Query :=
  {| q_username := None; q_theme := None; q_hide_border := None;
     q_title_color := None; q_text_color := None; q_bg_color := None;
     q_border_color := None; q_cache_seconds := None |}.

(** A host with a token, and one without. *)
Definition tokenHost : ProcessEnv :=
  {| PAT_1 := None; GITHUB_TOKEN := Some "token"; CACHE_SECONDS := None |}.

Definition bareHost : ProcessEnv :=
  {| PAT_1 := None; GITHUB_TOKEN := None; CACHE_SECONDS := None |}.

(** Every date with a positive count in the first series has one in the
    second. *)
Definition at_least_as_active (m m' : gmap Z Z) : Prop :=
  ∀ d, active m d → active m' d.

(** The series of the scenario with five contributions on the one day it
    lacks, 2024-01-04. *)
Definition filledSeries : gmap Z Z := <[19726 := 5]> scenario.

(** A boundary date that is reported has a positive count and is not
    before the first contribution. *)
Definition boundary_ok (contributions : gmap Z Z) (first boundary : option Z)
  : Prop :=
  ∀ x, boundary = Some x →
       active contributions x ∧ ∃ f, first = Some f ∧ f ≤ x.

(** The four boundary dates of a result. *)
Definition boundaries_ok (contributions : gmap Z Z) (d : StreakData) : Prop :=
  boundary_ok contributions (firstContribution d) (currentStreakStart d) ∧
  boundary_ok contributions (firstContribution d) (currentStreakEnd d) ∧
  boundary_ok contributions (firstContribution d) (longestStreakStart d) ∧
  boundary_ok contributions (firstContribution d) (longestStreakEnd d).

(** * Properties *)

Example scenario_result :
  calculateStreaks scenario (dateMs 19727 + 5000) =
  Some {| r_currentStreak := 1; r_longestStreak := 2;
          r_totalContributions := 6;
          r_firstContribution := "Jan 1, 2024";
          r_currentStreakStart := "Jan 5"; r_currentStreakEnd := "Jan 5";
          r_longestStreakStart := "Jan 1"; r_longestStreakEnd := "Jan 2" |}.
Proof. vm_compute. reflexivity. Qed.

Example grace_result :
  calculateStreaksData graceSeries (dateMs 19727) =
  Some (MkStreakData 1 1 4 (Some 19726) (Some 19726) (Some 19726)
          (Some 19726) (Some 19726)).
Proof. vm_compute. reflexivity. Qed.

Example legacy_grace_result :
  Legacy.calculateStreaksData graceSeries (dateMs 19727) =
  MkStreakData 0 1 4 (Some 19726) None None (Some 19726) (Some 19726).
Proof. vm_compute. reflexivity. Qed.

Example year_gap_result :
  calculateStreaksData yearGapSeries (dateMs 19723) =
  Some (MkStreakData 1 1 2 (Some 19357) (Some 19723) (Some 19723)
          (Some 19357) (Some 19357)).
Proof. vm_compute. reflexivity. Qed.

Example year_gap_dates :
  formatDateForDisplay (Some 18993) true = "Jan 1, 2022" ∧
  formatDateForDisplay (Some 19357) true = "Dec 31, 2022" ∧
  formatDateForDisplay (Some 19723) true = "Jan 1, 2024" ∧
  formatDateForDisplay (Some 20088) true = "Dec 31, 2024" ∧
  size yearGapSeries = 731%nat.
Proof. repeat split; vm_compute; reflexivity. Qed.

(** ** Dates *)

Lemma nextDay_spec prev date : Scan.nextDay prev date = (date - prev =? 1).
Proof.
  unfold Scan.nextDay, dateMs, MS_PER_DAY.
  destruct (Z.eqb_spec (date - prev) 1) as [H|H].
  - apply Z.eqb_eq. lia.
  - apply Z.eqb_neq. lia.
Qed.

Lemma utcToday_dateMs d t : 0 ≤ t < MS_PER_DAY → utcToday (dateMs d + t) = d.
Proof.
  intros Ht. unfold utcToday, dateMs.
  symmetry. apply (Z.div_unique_pos _ _ d t); unfold MS_PER_DAY in *; lia.
Qed.

Lemma positive_count_true (m : gmap Z Z) d :
  positive_count (m !! d) = true ↔ ∃ c, m !! d = Some c ∧ 0 < c.
Proof.
  unfold positive_count. destruct (m !! d) as [c|].
  - rewrite Z.ltb_lt. split; [eauto | intros (c' & [= <-] & ?); done].
  - split; [done | intros (c & ? & ?); done].
Qed.

Lemma positive_count_false (m : gmap Z Z) d :
  positive_count (m !! d) = false ↔ m !! d = None ∨ ∃ c, m !! d = Some c ∧ c ≤ 0.
Proof.
  unfold positive_count. destruct (m !! d) as [c|].
  - rewrite Z.ltb_ge. split.
    + intros ?. right. eauto.
    + intros [?|(c' & [= <-] & ?)]; done.
  - split; [by left | done].
Qed.

Lemma countOrZero_positive (m : gmap Z Z) d :
  (0 <? countOrZero m d) = positive_count (m !! d).
Proof. unfold countOrZero, positive_count. by destruct (m !! d). Qed.

(** ** The sorted dates *)

Lemma sortedDates_perm (m : gmap Z Z) : sortedDates m ≡ₚ (map_to_list m).*1.
Proof. apply merge_sort_Permutation. Qed.

Lemma elem_of_sortedDates (m : gmap Z Z) d : d ∈ sortedDates m ↔ is_Some (m !! d).
Proof.
  rewrite sortedDates_perm, list_elem_of_fmap. split.
  - intros ([k c] & -> & Hin). apply elem_of_map_to_list in Hin. eauto.
  - intros [c Hc]. exists (d, c). split; [done|]. by apply elem_of_map_to_list.
Qed.

Lemma sortedDates_NoDup (m : gmap Z Z) : NoDup (sortedDates m).
Proof. rewrite sortedDates_perm. apply NoDup_fst_map_to_list. Qed.

Lemma sortedDates_length (m : gmap Z Z) : length (sortedDates m) = size m.
Proof.
  rewrite sortedDates_perm, length_fmap. apply length_map_to_list.
Qed.

Lemma sorted_le_NoDup_lt (l : list Z) :
  StronglySorted Z.le l → NoDup l → StronglySorted Z.lt l.
Proof.
  induction 1 as [|x l Hs IH Hall]; intros Hnd; [constructor|].
  apply NoDup_cons in Hnd as [Hx Hnd].
  constructor; [auto|].
  rewrite Forall_forall in Hall |- *. intros y Hy.
  specialize (Hall y Hy).
  assert (x ≠ y) by (intros ->; done). lia.
Qed.

Lemma sortedDates_ascending (m : gmap Z Z) : StronglySorted Z.lt (sortedDates m).
Proof.
  apply sorted_le_NoDup_lt; [|apply sortedDates_NoDup].
  apply (StronglySorted_merge_sort Z.le).
Qed.

Lemma sortedDates_empty : sortedDates ∅ = [].
Proof. reflexivity. Qed.

(** ** The backward walk *)

Lemma keys_below_le (l : list Z) (d : Z) :
  (length (filter (λ x, (x ≤ d - 1)%Z) l)
   ≤ length (filter (λ x, (x ≤ d)%Z) l))%nat.
Proof.
  induction l as [|x l IH]; [done|].
  rewrite !filter_cons.
  destruct (decide (x ≤ d - 1)), (decide (x ≤ d)); simpl; lia.
Qed.

Lemma keys_below_lt (l : list Z) (d : Z) :
  d ∈ l →
  (length (filter (λ x, (x ≤ d - 1)%Z) l)
   < length (filter (λ x, (x ≤ d)%Z) l))%nat.
Proof.
  induction l as [|x l IH]; intros Hd; [by apply elem_of_nil in Hd|].
  rewrite !filter_cons.
  apply elem_of_cons in Hd as [<-|Hd].
  - pose proof (keys_below_le l d).
    destruct (decide (d ≤ d - 1)), (decide (d ≤ d)); simpl; lia.
  - specialize (IH Hd).
    destruct (decide (x ≤ d - 1)), (decide (x ≤ d)); simpl; lia.
Qed.

Lemma body_Some (m : gmap Z Z) s s' :
  Walk.body m s = Some s' →
  positive_count (m !! Walk.checkDate s) = true ∧
  s' = Walk.State (Walk.checkDate s - 1) (Walk.currentStreak s + 1)
         (Some (Walk.checkDate s))
         (Some (default (Walk.checkDate s) (Walk.currentStreakEnd s))).
Proof.
  unfold Walk.body.
  destruct (positive_count (m !! Walk.checkDate s)); [|done].
  intros [= <-]. split; [done|].
  by destruct (Walk.currentStreakEnd s).
Qed.

Lemma body_None (m : gmap Z Z) s :
  Walk.body m s = None ↔ positive_count (m !! Walk.checkDate s) = false.
Proof.
  unfold Walk.body.
  by destruct (positive_count (m !! Walk.checkDate s)).
Qed.

Lemma loop_terminates (m : gmap Z Z) fuel s :
  (length (filter (λ x, (x ≤ Walk.checkDate s)%Z) (sortedDates m))
   < fuel)%nat →
  is_Some (Walk.loop fuel m s).
Proof.
  revert s. induction fuel as [|fuel IH]; intros s Hlt; [lia|].
  simpl. destruct (Walk.body m s) as [s'|] eqn:Hb; [|eauto].
  apply body_Some in Hb as [Hpos ->].
  apply IH. simpl.
  apply positive_count_true in Hpos as (c & Hc & _).
  assert (Walk.checkDate s ∈ sortedDates m) as Hin
    by (apply elem_of_sortedDates; eauto).
  pose proof (keys_below_lt _ _ Hin). lia.
Qed.

Lemma loop_within_budget (m : gmap Z Z) s :
  is_Some (Walk.loop (walkBudget m) m s).
Proof.
  apply loop_terminates. unfold walkBudget.
  pose proof (length_filter (λ x, x ≤ Walk.checkDate s) (sortedDates m)).
  rewrite sortedDates_length in *. lia.
Qed.

Lemma loop_fuel_mono (m : gmap Z Z) fuel fuel' s r :
  Walk.loop fuel m s = Some r → (fuel ≤ fuel')%nat →
  Walk.loop fuel' m s = Some r.
Proof.
  revert fuel' s. induction fuel as [|fuel IH]; intros fuel' s Hr Hle; [done|].
  destruct fuel' as [|fuel']; [lia|].
  simpl in *. destruct (Walk.body m s); [|done].
  apply IH; [done | lia].
Qed.

(** What the loop leaves behind, in the number [n] of turns that counted a
    date. *)
Lemma loop_spec (m : gmap Z Z) fuel s r :
  Walk.loop fuel m s = Some r →
  ∃ n : nat,
    (∀ k : nat, (k < n)%nat →
       positive_count (m !! (Walk.checkDate s - Z.of_nat k)) = true) ∧
    positive_count (m !! (Walk.checkDate s - Z.of_nat n)) = false ∧
    Walk.checkDate r = Walk.checkDate s - Z.of_nat n ∧
    Walk.currentStreak r = Walk.currentStreak s + Z.of_nat n ∧
    (n = 0%nat → r = s) ∧
    (n ≠ 0%nat →
       Walk.currentStreakStart r = Some (Walk.checkDate s - Z.of_nat n + 1) ∧
       Walk.currentStreakEnd r =
         Some (default (Walk.checkDate s) (Walk.currentStreakEnd s))).
Proof.
  revert s. induction fuel as [|fuel IH]; intros s Hr; [done|].
  simpl in Hr. destruct (Walk.body m s) as [s'|] eqn:Hb.
  - apply body_Some in Hb as [Hpos ->].
    apply IH in Hr as (n & Hrun & Hstop & Hcd & Hcs & Hzero & Hpos').
    simpl in *. exists (S n). repeat split.
    + intros [|k] Hk.
      * by rewrite Z.sub_0_r.
      * replace (Walk.checkDate s - Z.of_nat (S k))
          with (Walk.checkDate s - 1 - Z.of_nat k)
          by lia.
        apply Hrun. lia.
    + by replace (Walk.checkDate s - Z.of_nat (S n))
        with (Walk.checkDate s - 1 - Z.of_nat n)
        by lia.
    + lia.
    + lia.
    + done.
    + destruct n as [|n].
      * rewrite (Hzero eq_refl). simpl. f_equal. lia.
      * destruct Hpos' as [-> _]; [done|]. f_equal. lia.
    + destruct n as [|n].
      * by rewrite (Hzero eq_refl).
      * by destruct Hpos' as [_ ->].
  - apply body_None in Hb. injection Hr as <-.
    exists 0%nat. repeat split; try done.
    + intros k Hk. lia.
    + by rewrite Z.sub_0_r.
    + simpl. lia.
    + simpl. lia.
Qed.

(** ** The longest-streak pass *)

Lemma scan_inv_init : scan_inv Scan.init.
Proof.
  unfold scan_inv, bounded. simpl. repeat split; try lia; done.
Qed.

Lemma scan_body_unfold (m : gmap Z Z) s date :
  Scan.body m s date =
  if positive_count (m !! date) then
    let extends :=
      match Scan.prevDate s with
      | None => true
      | Some prev => prev + 1 =? date
      end in
    let temp := if extends then Scan.tempStreak s + 1 else 1 in
    let tempStart :=
      if extends
      then (if Scan.tempStreak s =? 0 then Some date
            else Scan.tempStreakStart s)
      else Some date in
    if Scan.longestStreak s <? temp then
      Scan.State temp (Some date) tempStart temp tempStart (Some date)
    else
      Scan.State temp (Some date) tempStart (Scan.longestStreak s)
        (Scan.longestStreakStart s) (Scan.longestStreakEnd s)
  else
    Scan.State 0 (Some date) (Scan.tempStreakStart s) (Scan.longestStreak s)
      (Scan.longestStreakStart s) (Scan.longestStreakEnd s).
Proof.
  unfold Scan.body.
  destruct (positive_count (m !! date)); [|done].
  assert ((match Scan.prevDate s with
           | None => true
           | Some prev => Scan.nextDay prev date
           end) =
          (match Scan.prevDate s with
           | None => true
           | Some prev => prev + 1 =? date
           end)) as ->.
  { destruct (Scan.prevDate s) as [prev|]; [|done].
    rewrite nextDay_spec.
    destruct (Z.eqb_spec (date - prev) 1), (Z.eqb_spec (prev + 1) date);
      try done; lia. }
  by destruct (match Scan.prevDate s with
               | None => true
               | Some prev => prev + 1 =? date
               end).
Qed.

Local Ltac scan_inv_cases :=
  unfold scan_inv, bounded; simpl;
  repeat match goal with
         | |- _ ∧ _ => split
         | |- _ → _ => intros ?
         end;
  try lia; try done;
  try (eexists _, _; repeat split; first [done | eassumption | lia]).

Lemma scan_inv_body (m : gmap Z Z) s date :
  scan_inv s → scan_inv (Scan.body m s date).
Proof.
  intros ((Ht0 & Htl) & Hnone & Htemp & Hbest).
  rewrite scan_body_unfold.
  destruct (positive_count (m !! date)).
  - cbv zeta.
    destruct (Scan.prevDate s) as [prev|] eqn:Hprev.
    + destruct (Z.eqb_spec (prev + 1) date) as [Hnext|Hnext].
      * assert (∃ st, (if Scan.tempStreak s =? 0 then Some date
                       else Scan.tempStreakStart s) = Some st ∧ st ≤ date)
          as (st & Hst & Hle).
        { destruct (Z.eqb_spec (Scan.tempStreak s) 0).
          - exists date. split; [done | lia].
          - destruct Htemp as (st & p & -> & [= <-] & ?); [lia|].
            exists st. split; [done | lia]. }
        rewrite Hst.
        destruct (Z.ltb_spec (Scan.longestStreak s) (Scan.tempStreak s + 1));
          scan_inv_cases.
        apply Hbest. lia.
      * destruct (Z.ltb_spec (Scan.longestStreak s) 1); scan_inv_cases.
        apply Hbest. lia.
    + rewrite (Hnone eq_refl), Z.add_0_l. simpl.
      destruct (Z.ltb_spec (Scan.longestStreak s) 1); scan_inv_cases.
      apply Hbest. lia.
  - scan_inv_cases. apply Hbest. lia.
Qed.

Lemma scan_inv_foldl (m : gmap Z Z) dates s :
  scan_inv s → scan_inv (foldl (Scan.body m) s dates).
Proof.
  revert s. induction dates as [|d dates IH]; intros s Hs; [done|].
  simpl. apply IH. by apply scan_inv_body.
Qed.

Lemma scan_inv_run (m : gmap Z Z) dates : scan_inv (Scan.run m dates).
Proof. apply scan_inv_foldl, scan_inv_init. Qed.

Lemma body_specStep (m : gmap Z Z) s date :
  scan_inv s → Scan.body m s date = specStep m s date.
Proof.
  intros ((Ht0 & Htl) & Hnone & _ & _).
  rewrite scan_body_unfold. unfold specStep, specRunLength.
  destruct (decide (active m date)) as [Hact|Hidle].
  - assert (positive_count (m !! date) = true) as ->
      by (by apply positive_count_true).
    cbv zeta.
    destruct (Scan.prevDate s) as [prev|].
    + repeat first
        [ case_decide
        | match goal with
          | |- context [?a =? ?b] => destruct (Z.eqb_spec a b)
          | |- context [?a <? ?b] => destruct (Z.ltb_spec a b)
          end ];
        first [reflexivity | lia].
    + rewrite (Hnone eq_refl), Z.add_0_l.
      repeat first
        [ case_decide
        | match goal with
          | |- context [?a =? ?b] => destruct (Z.eqb_spec a b)
          | |- context [?a <? ?b] => destruct (Z.ltb_spec a b)
          end ];
        first [reflexivity | lia].
  - assert (positive_count (m !! date) = false) as ->.
    { apply not_true_is_false. intros Hpos.
      by apply Hidle, positive_count_true. }
    repeat case_decide; first [reflexivity | lia].
Qed.

Lemma foldl_body_specStep (m : gmap Z Z) dates s :
  scan_inv s →
  foldl (Scan.body m) s dates = foldl (specStep m) s dates.
Proof.
  revert s. induction dates as [|d dates IH]; intros s Hs; [done|].
  simpl. rewrite <- (body_specStep m s d Hs).
  apply IH. by apply scan_inv_body.
Qed.

Lemma scan_prevDate_snoc (m : gmap Z Z) s dates d :
  Scan.prevDate (foldl (Scan.body m) s (dates ++ [d])) = Some d.
Proof.
  rewrite foldl_snoc, scan_body_unfold.
  destruct (positive_count (m !! d)); [|done].
  cbv zeta.
  by destruct (Scan.longestStreak _ <? _).
Qed.

Lemma scan_prevDate_last (m : gmap Z Z) dates :
  Scan.prevDate (Scan.run m dates) = last dates.
Proof.
  destruct dates as [|d dates _] using rev_ind; [done|].
  unfold Scan.run. by rewrite scan_prevDate_snoc, last_snoc.
Qed.

Lemma scan_longest_body_mono (m : gmap Z Z) s d :
  Scan.longestStreak s ≤ Scan.longestStreak (Scan.body m s d).
Proof.
  rewrite scan_body_unfold.
  destruct (positive_count (m !! d)); [|simpl; lia].
  cbv zeta.
  match goal with
  | |- context [Scan.longestStreak s <? ?t] =>
      destruct (Z.ltb_spec (Scan.longestStreak s) t)
  end; simpl; lia.
Qed.

Lemma scan_longest_foldl_mono (m : gmap Z Z) s dates :
  Scan.longestStreak s ≤ Scan.longestStreak (foldl (Scan.body m) s dates).
Proof.
  revert s. induction dates as [|d dates IH]; intros s; [done|].
  simpl. etrans; [apply (scan_longest_body_mono m s d) | apply IH].
Qed.

Lemma scan_temp_positive (m : gmap Z Z) s d :
  scan_inv s → positive_count (m !! d) = true →
  1 ≤ Scan.tempStreak (Scan.body m s d).
Proof.
  intros ((Ht0 & _) & _) Hpos.
  rewrite scan_body_unfold, Hpos. cbv zeta.
  repeat match goal with
         | |- context [if ?b then _ else _] => destruct b
         end; simpl; lia.
Qed.

Lemma scan_temp_extends (m : gmap Z Z) s d :
  positive_count (m !! d) = true → Scan.prevDate s = Some (d - 1) →
  Scan.tempStreak (Scan.body m s d) = Scan.tempStreak s + 1.
Proof.
  intros Hpos Hprev.
  rewrite scan_body_unfold, Hpos, Hprev. cbv zeta.
  replace (d - 1 + 1 =? d) with true by (symmetry; apply Z.eqb_eq; lia).
  by destruct (Scan.longestStreak s <? Scan.tempStreak s + 1).
Qed.

(** In an ascending list the day before a date, when it is there, comes
    right before the date. *)
Lemma sorted_pred_last (l1 l2 : list Z) d :
  StronglySorted Z.lt (l1 ++ d :: l2) → d - 1 ∈ l1 ++ d :: l2 →
  ∃ l1', l1 = l1' ++ [d - 1].
Proof.
  intros Hs Hin.
  assert (d - 1 ∈ l1) as Hin1.
  { apply elem_of_app in Hin as [?|Hin]; [done|].
    apply elem_of_cons in Hin as [?|Hin]; [lia|].
    apply StronglySorted_app_1_r in Hs.
    apply StronglySorted_cons in Hs as [Hall _].
    rewrite Forall_forall in Hall. specialize (Hall _ Hin). lia. }
  apply list_elem_of_split in Hin1 as (a & b & ->).
  exists a. destruct b as [|x b]; [done|]. exfalso.
  assert (x < d).
  { apply (StronglySorted_app_1_elem_of _ _ _ x d Hs).
    - apply elem_of_app. right. apply elem_of_cons. right.
      apply elem_of_cons. by left.
    - apply elem_of_cons. by left. }
  assert (d - 1 < x).
  { apply StronglySorted_app_1_l, StronglySorted_app_1_r in Hs.
    apply StronglySorted_cons in Hs as [Hall _].
    rewrite Forall_forall in Hall. apply Hall.
    apply elem_of_cons. by left. }
  lia.
Qed.

(** A run of [n] days with positive counts that ends at [d] gives a
    running length of at least [n] at [d]. *)
Lemma scan_temp_covers (m : gmap Z Z) (n : nat) :
  ∀ l1 d l2,
    StronglySorted Z.lt (l1 ++ d :: l2) →
    (∀ x, is_Some (m !! x) → x ∈ l1 ++ d :: l2) →
    (∀ k : nat, (k < n)%nat → positive_count (m !! (d - Z.of_nat k)) = true) →
    Z.of_nat n ≤ Scan.tempStreak (Scan.run m (l1 ++ [d])).
Proof.
  induction n as [|n IH]; intros l1 d l2 Hs Hkeys Hrun.
  - pose proof (scan_inv_run m (l1 ++ [d])) as ((? & _) & _). lia.
  - assert (positive_count (m !! d) = true) as Hd.
    { specialize (Hrun 0%nat). rewrite Z.sub_0_r in Hrun. apply Hrun. lia. }
    unfold Scan.run. rewrite foldl_snoc.
    destruct n as [|n].
    + pose proof (scan_temp_positive m (Scan.run m l1) d
                    (scan_inv_run m l1) Hd).
      unfold Scan.run in *. lia.
    + assert (positive_count (m !! (d - 1)) = true) as Hd1.
      { apply (Hrun 1%nat). lia. }
      destruct (sorted_pred_last l1 l2 d Hs) as [l1' ->].
      { apply Hkeys. apply positive_count_true in Hd1 as (c & -> & _). eauto. }
      rewrite scan_temp_extends;
        [|done | apply scan_prevDate_snoc].
      assert (Z.of_nat (S n) ≤ Scan.tempStreak (Scan.run m (l1' ++ [d - 1])))
        as Hle.
      { apply (IH l1' (d - 1) (d :: l2)).
        - by rewrite <- app_assoc in Hs.
        - intros x Hx. rewrite <- app_assoc in Hkeys. by apply Hkeys.
        - intros k Hk.
          replace (d - 1 - Z.of_nat k) with (d - Z.of_nat (S k)) by lia.
          apply Hrun. lia. }
      unfold Scan.run in Hle. lia.
Qed.

Lemma scan_longest_covers (m : gmap Z Z) (n : nat) d :
  (∀ k : nat, (k < n)%nat → positive_count (m !! (d - Z.of_nat k)) = true) →
  (0 < n)%nat →
  Z.of_nat n ≤ Scan.longestStreak (Scan.run m (sortedDates m)).
Proof.
  intros Hrun Hn.
  assert (d ∈ sortedDates m) as Hin.
  { apply elem_of_sortedDates.
    specialize (Hrun 0%nat Hn). rewrite Z.sub_0_r in Hrun.
    apply positive_count_true in Hrun as (c & -> & _). eauto. }
  apply list_elem_of_split in Hin as (l1 & l2 & Hsplit).
  pose proof (sortedDates_ascending m) as Hs. rewrite Hsplit in Hs.
  assert (Z.of_nat n ≤ Scan.tempStreak (Scan.run m (l1 ++ [d]))) as Hle.
  { apply (scan_temp_covers m n l1 d l2 Hs); [|done].
    intros x Hx. rewrite <- Hsplit. by apply elem_of_sortedDates. }
  pose proof (scan_inv_run m (l1 ++ [d])) as ((_ & Htl) & _).
  pose proof (scan_longest_foldl_mono m (Scan.run m (l1 ++ [d])) l2) as Hmono.
  unfold Scan.run in *.
  rewrite Hsplit, (cons_middle d l1 l2), app_assoc, foldl_app.
  lia.
Qed.

(** ** The total *)

Lemma foldl_add_foldr (f : Z → Z) (l : list Z) a :
  foldl (λ total d, total + f d) a l = a + foldr Z.add 0 (f <$> l).
Proof.
  revert a. induction l as [|x l IH]; intros a; simpl; [lia|].
  rewrite IH. symmetry. apply Z.add_assoc.
Qed.

Lemma sum_perm (l l' : list Z) :
  l ≡ₚ l' → foldr Z.add 0 l = foldr Z.add 0 l'.
Proof. induction 1; simpl; lia. Qed.

Lemma counts_of_keys (m : gmap Z Z) (l : list (Z * Z)) :
  (∀ k c, (k, c) ∈ l → m !! k = Some c) →
  countOrZero m <$> l.*1 = l.*2.
Proof.
  induction l as [|[k c] l IH]; intros Hl; [done|].
  simpl. f_equal.
  - unfold countOrZero. rewrite (Hl k c); [done|]. apply elem_of_cons. by left.
  - apply IH. intros k' c' Hin. apply Hl. apply elem_of_cons. by right.
Qed.

Lemma sumContributions_seriesTotal (m : gmap Z Z) :
  sumContributions m (sortedDates m) = seriesTotal m.
Proof.
  unfold sumContributions, seriesTotal.
  rewrite foldl_add_foldr, Z.add_0_l.
  rewrite (sum_perm _ (countOrZero m <$> (map_to_list m).*1)).
  - f_equal. apply counts_of_keys.
    intros k c Hin. by apply elem_of_map_to_list.
  - apply fmap_Permutation, sortedDates_perm.
Qed.

Lemma seriesTotal_nonneg (m : gmap Z Z) : series_wf m → 0 ≤ seriesTotal m.
Proof.
  unfold series_wf, seriesTotal. rewrite map_Forall_to_list.
  induction 1 as [|[k c] l Hc _ IH]; [done|].
  simpl in *. by apply Z.add_nonneg_nonneg.
Qed.

Lemma seriesTotal_empty : seriesTotal ∅ = 0.
Proof. unfold seriesTotal. by rewrite map_to_list_empty. Qed.

(** ** The current streak *)

Lemma startDate_cases (m : gmap Z Z) today yesterday :
  startDate m today yesterday =
  if positive_count (m !! today) then Some today
  else if positive_count (m !! yesterday) then Some yesterday
  else None.
Proof. unfold startDate. by rewrite !countOrZero_positive. Qed.

Lemma startDate_active (m : gmap Z Z) today yesterday anchor :
  startDate m today yesterday = Some anchor →
  positive_count (m !! anchor) = true.
Proof.
  rewrite startDate_cases.
  destruct (positive_count (m !! today)) eqn:Ht; [by intros [= <-]|].
  destruct (positive_count (m !! yesterday)) eqn:Hy; [by intros [= <-]|done].
Qed.

Lemma active_positive_count (m : gmap Z Z) d :
  active m d ↔ positive_count (m !! d) = true.
Proof. unfold active. by rewrite positive_count_true. Qed.

(** The walk from an anchor returns, and counts the [n] days that end at
    the anchor. *)
Lemma walk_from_anchor (m : gmap Z Z) anchor :
  ∃ w (n : nat),
    Walk.loop (walkBudget m) m (Walk.init anchor) = Some w ∧
    Walk.currentStreak w = Z.of_nat n ∧
    (∀ k : nat, (k < n)%nat →
       positive_count (m !! (anchor - Z.of_nat k)) = true) ∧
    positive_count (m !! (anchor - Z.of_nat n)) = false ∧
    (n = 0%nat →
       Walk.currentStreakStart w = None ∧ Walk.currentStreakEnd w = None) ∧
    (n ≠ 0%nat →
       Walk.currentStreakStart w = Some (anchor - Z.of_nat n + 1) ∧
       Walk.currentStreakEnd w = Some anchor).
Proof.
  destruct (loop_within_budget m (Walk.init anchor)) as [w Hw].
  destruct (loop_spec _ _ _ _ Hw)
    as (n & Hrun & Hstop & _ & Hcs & Hzero & Hpos).
  simpl in *. exists w, n. repeat split; try done.
  - by rewrite (Hzero H).
  - by rewrite (Hzero H).
  - by apply Hpos.
  - by apply Hpos.
Qed.

Lemma calculateStreaksData_Some (m : gmap Z Z) now :
  ∃ w,
    currentStreakWalk (walkBudget m) m
      (startDate m (utcToday now) (utcYesterday now)) = Some w ∧
    calculateStreaksData m now =
      Some (MkStreakData
              (Walk.currentStreak w)
              (Scan.longestStreak (Scan.run m (sortedDates m)))
              (sumContributions m (sortedDates m))
              (findFirstContribution m (sortedDates m))
              (Walk.currentStreakStart w) (Walk.currentStreakEnd w)
              (Scan.longestStreakStart (Scan.run m (sortedDates m)))
              (Scan.longestStreakEnd (Scan.run m (sortedDates m)))).
Proof.
  unfold calculateStreaksData, streakData.
  destruct (startDate m (utcToday now) (utcYesterday now)) as [anchor|].
  - unfold currentStreakWalk.
    destruct (loop_within_budget m (Walk.init anchor)) as [w Hw].
    exists w. by rewrite Hw.
  - unfold currentStreakWalk. eauto.
Qed.

(** ** The earlier current-streak loop *)

Lemma legacy_inv_init : legacy_inv Legacy.init.
Proof. unfold legacy_inv. simpl. repeat split; [lia | lia | done]. Qed.

Lemma legacy_inv_body (m : gmap Z Z) today s date :
  legacy_inv s →
  (∀ st, Legacy.currentStreakStart s = Some st → date < st) →
  legacy_inv (Legacy.body m today s date) ∧
  (∀ st, Legacy.currentStreakStart (Legacy.body m today s date) = Some st →
         date ≤ st).
Proof.
  intros (H0 & Hend & Hord) Hnext. unfold Legacy.body.
  destruct (today <? date); [split; [done|]; intros st Hst; by apply Z.lt_le_incl, Hnext|].
  destruct (Legacy.streaking s);
    [|split; [done|]; intros st Hst; by apply Z.lt_le_incl, Hnext].
  destruct (positive_count (m !! date)).
  - split; [|simpl; by intros st [= <-]].
    unfold legacy_inv. simpl. repeat split; [lia | |].
    + intros _. destruct (Legacy.currentStreakEnd s); eauto.
    + intros e He. exists date. split; [done|].
      destruct (Legacy.currentStreakEnd s) as [e'|] eqn:He'.
      * injection He as <-.
        destruct (Hord e' eq_refl) as (st & Hst & Hle).
        specialize (Hnext st Hst). lia.
      * injection He as <-. lia.
  - destruct ((date =? today) || (date <? today));
      (split; [done|]; simpl; intros st Hst; by apply Z.lt_le_incl, Hnext).
Qed.

Lemma legacy_inv_foldl (m : gmap Z Z) today (dates : list Z) :
  ∀ s,
    StronglySorted Z.lt dates →
    legacy_inv s →
    (∀ st, Legacy.currentStreakStart s = Some st →
           Forall (λ x, x < st) dates) →
    legacy_inv (foldl (Legacy.body m today) s (reverse dates)).
Proof.
  induction dates as [|d dates IH] using rev_ind; intros s Hs Hinv Hnext;
    [done|].
  rewrite reverse_snoc. simpl.
  destruct (legacy_inv_body m today s d Hinv) as [Hinv' Hnext'].
  { intros st Hst. specialize (Hnext st Hst).
    rewrite Forall_forall in Hnext. apply Hnext.
    apply elem_of_app. right. apply elem_of_cons. by left. }
  apply IH; [by apply StronglySorted_app_1_l in Hs | done |].
  intros st Hst. specialize (Hnext' st Hst).
  apply Forall_forall. intros x Hx.
  assert (x < d); [|lia].
  apply (StronglySorted_app_1_elem_of _ _ _ x d Hs Hx).
  apply elem_of_cons. by left.
Qed.

Lemma legacy_inv_run (m : gmap Z Z) today :
  legacy_inv (Legacy.run m today (sortedDates m)).
Proof.
  apply legacy_inv_foldl;
    [apply sortedDates_ascending | apply legacy_inv_init | done].
Qed.

Lemma legacy_bounded (s : Legacy.state) :
  legacy_inv s →
  bounded (Legacy.currentStreak s) (Legacy.currentStreakStart s)
    (Legacy.currentStreakEnd s).
Proof.
  intros (_ & Hend & Hord) Hpos.
  destruct (Hend Hpos) as [e He].
  destruct (Hord e He) as (st & Hst & Hle). eauto.
Qed.

Lemma legacy_skip_future (m : gmap Z Z) today s (l : list Z) :
  Forall (λ x, today < x) l → foldl (Legacy.body m today) s l = s.
Proof.
  induction 1 as [|x l Hx _ IH]; [done|].
  simpl. unfold Legacy.body at 2.
  by replace (today <? x) with true by (symmetry; by apply Z.ltb_lt).
Qed.

Lemma legacy_frozen (m : gmap Z Z) today s (l : list Z) :
  Legacy.streaking s = false → foldl (Legacy.body m today) s l = s.
Proof.
  intros Hs. induction l as [|x l IH]; [done|].
  simpl. unfold Legacy.body at 2. rewrite Hs.
  by destruct (today <? x).
Qed.

Lemma legacy_end_stable (m : gmap Z Z) today (l : list Z) :
  ∀ s e,
    Legacy.currentStreakEnd s = Some e →
    Legacy.currentStreakEnd (foldl (Legacy.body m today) s l) = Some e ∧
    Legacy.currentStreak s
      ≤ Legacy.currentStreak (foldl (Legacy.body m today) s l).
Proof.
  induction l as [|x l IH]; intros s e He; [by split|].
  simpl.
  assert (Legacy.currentStreakEnd (Legacy.body m today s x) = Some e ∧
          Legacy.currentStreak s
            ≤ Legacy.currentStreak (Legacy.body m today s x)) as [He' Hle].
  { unfold Legacy.body.
    repeat match goal with
           | |- context [if ?b then _ else _] => destruct b
           end; simpl; rewrite ?He; split; (done || lia). }
  destruct (IH _ _ He') as [? ?]. split; [done | lia].
Qed.

(** With today among the recorded dates, the earlier loop starts at
    today. *)
Lemma legacy_run_today (m : gmap Z Z) today :
  is_Some (m !! today) →
  ∃ older,
    Legacy.run m today (sortedDates m) =
    foldl (Legacy.body m today)
      (Legacy.body m today Legacy.init today) older.
Proof.
  intros Hin. apply elem_of_sortedDates in Hin.
  apply list_elem_of_split in Hin as (l1 & l2 & Hsplit).
  pose proof (sortedDates_ascending m) as Hs. rewrite Hsplit in Hs.
  apply StronglySorted_app_1_r, StronglySorted_cons in Hs as [Hall _].
  exists (reverse l1). unfold Legacy.run.
  rewrite Hsplit, reverse_app, reverse_cons, <- app_assoc, foldl_app.
  rewrite (legacy_skip_future m today Legacy.init (reverse l2));
    [reflexivity|].
  by apply Forall_reverse.
Qed.

Lemma legacy_body_today_active (m : gmap Z Z) today :
  positive_count (m !! today) = true →
  Legacy.body m today Legacy.init today =
  Legacy.State 1 (Some today) (Some today) true.
Proof.
  intros Hpos. unfold Legacy.body. by rewrite Z.ltb_irrefl, Hpos.
Qed.

Lemma legacy_body_today_idle (m : gmap Z Z) today :
  positive_count (m !! today) = false →
  Legacy.body m today Legacy.init today = Legacy.State 0 None None false.
Proof.
  intros Hpos. unfold Legacy.body.
  by rewrite Z.ltb_irrefl, Hpos, Z.eqb_refl.
Qed.

Lemma legacy_today_active (m : gmap Z Z) now :
  active m (utcToday now) →
  currentStreakEnd (Legacy.calculateStreaksData m now) = Some (utcToday now) ∧
  0 < currentStreak (Legacy.calculateStreaksData m now).
Proof.
  intros Hact. simpl.
  destruct (legacy_run_today m (utcToday now)) as [older ->].
  { destruct Hact as (c & -> & _). eauto. }
  apply active_positive_count in Hact.
  rewrite (legacy_body_today_active _ _ Hact).
  destruct (legacy_end_stable m (utcToday now) older
              (Legacy.State 1 (Some (utcToday now)) (Some (utcToday now)) true)
              (utcToday now) eq_refl) as [-> Hle].
  simpl in Hle. split; [done | lia].
Qed.

Lemma legacy_today_idle (m : gmap Z Z) now :
  is_Some (m !! utcToday now) → ¬ active m (utcToday now) →
  currentStreak (Legacy.calculateStreaksData m now) = 0 ∧
  currentStreakStart (Legacy.calculateStreaksData m now) = None ∧
  currentStreakEnd (Legacy.calculateStreaksData m now) = None.
Proof.
  intros Hin Hidle. simpl.
  destruct (legacy_run_today m (utcToday now) Hin) as [older ->].
  rewrite active_positive_count in Hidle.
  apply not_true_is_false in Hidle.
  rewrite (legacy_body_today_idle _ _ Hidle).
  by rewrite legacy_frozen.
Qed.

(** ** The aggregation *)

Lemma recordDays_app c days1 days2 :
  recordDays c (days1 ++ days2) = recordDays (recordDays c days1) days2.
Proof. apply foldl_app. Qed.

Lemma lastCount_app d days1 days2 :
  lastCount d (days1 ++ days2) =
  match lastCount d days2 with
  | Some c => Some c
  | None => lastCount d days1
  end.
Proof.
  induction days1 as [|day days1 IH]; simpl.
  - by destruct (lastCount d days2).
  - rewrite IH. by destruct (lastCount d days2).
Qed.

Lemma lastCount_None d days :
  lastCount d days = None ↔ ∀ day, day ∈ days → date day ≠ d.
Proof.
  induction days as [|day days IH]; simpl.
  - split; [|done]. intros _ day Hin. by apply elem_of_nil in Hin.
  - destruct (lastCount d days) as [c|].
    + split; [done|]. intros Hall.
      assert (Some c = None) as Hc; [|done].
      apply IH. intros x Hx. apply Hall. apply elem_of_cons. by right.
    + destruct IH as [IH _]. specialize (IH eq_refl).
      case_decide as Hd.
      * split; [done|]. intros Hall. exfalso.
        apply (Hall day); [apply elem_of_cons; by left | done].
      * split; [|done]. intros _ x Hx.
        apply elem_of_cons in Hx as [->|Hx]; [done | by apply IH].
Qed.

Lemma recordDays_lookup (c : gmap Z Z) days d :
  recordDays c days !! d =
  match lastCount d days with
  | Some count => Some count
  | None => c !! d
  end.
Proof.
  revert c. induction days as [|day days IH]; intros c; [done|].
  unfold recordDays in *. simpl. rewrite IH.
  destruct (lastCount d days) as [count|]; [done|].
  case_decide as Hd.
  - subst d. apply lookup_insert_eq.
  - by apply lookup_insert_ne.
Qed.

Lemma recordWeeks_recordDays c weeks :
  recordWeeks c weeks = recordDays c (week ← weeks; contributionDays week).
Proof.
  revert c. induction weeks as [|week weeks IH]; intros c; [done|].
  unfold recordWeeks in *. simpl. rewrite IH.
  symmetry. apply recordDays_app.
Qed.

Lemma observations_app user years1 years2 :
  observations user (years1 ++ years2) =
  observations user years1 ++ observations user years2.
Proof. unfold observations. apply bind_app. Qed.

Lemma observations_cons user year years :
  observations user (year :: years) =
  yearObservations user year ++ observations user years.
Proof. done. Qed.

Lemma foldl_years_recordDays (user : gmap Z YearData) years c :
  foldl (λ contributions year,
           match user !! year ≫= calendarWeeks with
           | Some weeks => recordWeeks contributions weeks
           | None => contributions
           end) c years =
  recordDays c (observations user years).
Proof.
  revert c. induction years as [|year years IH]; intros c; [done|].
  rewrite observations_cons, recordDays_app.
  change (foldl ?f c (year :: years)) with (foldl f (f c year) years).
  rewrite IH. f_equal. unfold yearObservations.
  destruct (user !! year ≫= calendarWeeks) as [weeks|]; [|done].
  by rewrite recordWeeks_recordDays.
Qed.

Lemma combineYears_lookup (user : gmap Z YearData) years d :
  combineYears user years !! d = lastCount d (observations user years).
Proof.
  unfold combineYears.
  rewrite foldl_years_recordDays, recordDays_lookup, lookup_empty.
  by destruct (lastCount d (observations user years)).
Qed.

(** The earlier loop, when it returns, has recorded the days of the years
    in order. *)
Lemma collectYears_returned env username token years :
  ∀ c n c' n',
    LegacyFetch.collectYears env username token years c n
      = (Returned c', n') →
    c' = recordDays c (legacyObservations env username token years).
Proof.
  induction years as [|year years IH]; intros c n c' n' Hret.
  - by injection Hret as <- <-.
  - simpl in Hret.
    unfold bind, LegacyFetch.fetchYearCalendar, request, throw, ret in Hret.
    unfold legacyObservations. simpl.
    destruct (yearAnswer env username year token) as [err|[weeks|]];
      simpl in Hret; try done.
    rewrite recordDays_app. by apply IH in Hret.
Qed.

(** ** Failures *)

Lemma tryCatch_rethrow {A} env (c : Fetch A) n err n' :
  tryCatch c (rethrow env) n = (Threw err, n') →
  ∃ msg, err = ThrownCustom (newCustomError env msg GRAPHQL_ERROR).
Proof.
  unfold tryCatch, rethrow, throw.
  destruct (c n) as [[a|e|] n'']; intros [= <- <-]; eauto.
Qed.

Lemma fetchStreak_missing env username token n :
  missing username = true →
  fetchStreak env username token n =
    (Threw (ThrownCustom
              (newCustomError env "Missing username parameter"
                 USER_NOT_FOUND)), n) ∧
  LegacyFetch.fetchStreak env username token n =
    (Threw (ThrownCustom
              (newCustomError env "Missing username parameter"
                 USER_NOT_FOUND)), n).
Proof.
  intros Hm. unfold fetchStreak, LegacyFetch.fetchStreak. by rewrite Hm.
Qed.

Lemma fetchStreak_no_user env user token n :
  missing (Some user) = false →
  yearsAnswer env user token = inr None →
  fetchStreak env (Some user) token n =
    (Threw (ThrownCustom
              (newCustomError env "Could not fetch user." GRAPHQL_ERROR)),
     S n) ∧
  LegacyFetch.fetchStreak env (Some user) token n =
    (Threw (ThrownCustom
              (newCustomError env "Could not fetch user." GRAPHQL_ERROR)),
     S n).
Proof.
  intros Hm Hans. unfold fetchStreak, LegacyFetch.fetchStreak.
  rewrite Hm. simpl.
  unfold tryCatch, bind, fetchContributionYears, bind, request.
  by rewrite Hans.
Qed.

Lemma fetchStreak_request_fails env user token n msg :
  missing (Some user) = false →
  yearsAnswer env user token = inl (ThrownOther msg) →
  fetchStreak env (Some user) token n =
    (Threw (ThrownCustom
              (newCustomError env
                 (orString msg "Could not fetch streak data.")
                 GRAPHQL_ERROR)),
     S n) ∧
  LegacyFetch.fetchStreak env (Some user) token n =
    (Threw (ThrownCustom
              (newCustomError env
                 (orString msg "Could not fetch streak data.")
                 GRAPHQL_ERROR)),
     S n).
Proof.
  intros Hm Hans. unfold fetchStreak, LegacyFetch.fetchStreak.
  rewrite Hm. simpl.
  unfold tryCatch, bind, fetchContributionYears, bind, request.
  by rewrite Hans.
Qed.

(** Every failure of [fetchStreak] is one [CustomError]; it is tagged
    [USER_NOT_FOUND] when the identifier is missing, and then no request
    was sent, and [GRAPHQL_ERROR] in every other case. *)
Lemma fetchStreak_failure env username token n err n' :
  fetchStreak env username token n = (Threw err, n') ∨
  LegacyFetch.fetchStreak env username token n = (Threw err, n') →
  ∃ e, err = ThrownCustom e ∧
       secondaryMessage e = secondaryMessages env (type e) ∧
       ((missing username = true ∧ type e = USER_NOT_FOUND ∧ n' = n) ∨
        (missing username = false ∧ type e = GRAPHQL_ERROR)).
Proof.
  unfold fetchStreak, LegacyFetch.fetchStreak.
  destruct (missing username) eqn:Hm.
  - unfold throw. intros [[= <- <-]|[= <- <-]];
      eexists; (split; [done|]); (split; [done|]); left; done.
  - intros [H|H]; apply tryCatch_rethrow in H as [msg ->];
      eexists; (split; [done|]); (split; [done|]); right; done.
Qed.

(** [fetchStreak] never hangs in the calculator. *)
Lemma returning_calculateStreaks (m : gmap Z Z) now n :
  ∃ r, returning (calculateStreaks m now) n = (Returned r, n).
Proof.
  unfold returning, calculateStreaks.
  destruct (calculateStreaksData_Some m now) as (w & _ & ->). simpl. eauto.
Qed.

(** ** The display *)

Lemma monthShort_cons m : ∃ a s, monthShort m = String a s.
Proof.
  unfold monthShort.
  repeat match goal with
         | |- context [match ?p with _ => _ end] => destruct p
         end; eauto.
Qed.

(** Only a null date is displayed as the empty string. *)
Lemma formatDateForDisplay_empty dateString includeYear :
  formatDateForDisplay dateString includeYear = "" ↔ dateString = None.
Proof.
  split; [|by intros ->].
  destruct dateString as [d|]; [|done].
  unfold formatDateForDisplay.
  destruct (civilFromDays d) as [[y mo] dd].
  destruct (monthShort_cons mo) as (a & s & ->).
  by destruct includeYear.
Qed.

(** * The properties of the specification *)

Lemma startDate_policy (m : gmap Z Z) today :
  (active m today → startDate m today (today - 1) = Some today) ∧
  (¬ active m today → active m (today - 1) →
     startDate m today (today - 1) = Some (today - 1)) ∧
  (¬ active m today → ¬ active m (today - 1) →
     startDate m today (today - 1) = None).
Proof.
  rewrite startDate_cases, !active_positive_count.
  destruct (positive_count (m !! today)),
    (positive_count (m !! (today - 1))); repeat split; done.
Qed.

Lemma anchor_policy_current (m : gmap Z Z) now :
  ∃ d, calculateStreaksData m now = Some d ∧
       anchor_policy m (utcToday now) d.
Proof.
  destruct (calculateStreaksData_Some m now) as (w & Hw & ->).
  eexists. split; [done|]. unfold anchor_policy. simpl.
  rewrite !active_positive_count.
  rewrite startDate_cases in Hw. unfold utcYesterday in Hw.
  destruct (positive_count (m !! utcToday now)) eqn:Ht;
    [|destruct (positive_count (m !! (utcToday now - 1))) eqn:Hy].
  - unfold currentStreakWalk in Hw.
    destruct (walk_from_anchor m (utcToday now))
      as (w' & n & Hw' & Hcs & Hrun & Hstop & _ & Hpos).
    rewrite Hw' in Hw. injection Hw as <-.
    assert (n ≠ 0%nat) as Hn.
    { intros ->. rewrite Z.sub_0_r in Hstop. congruence. }
    destruct (Hpos Hn) as [_ Hend].
    repeat split; try done; try lia.
  - unfold currentStreakWalk in Hw.
    destruct (walk_from_anchor m (utcToday now - 1))
      as (w' & n & Hw' & Hcs & Hrun & Hstop & _ & Hpos).
    rewrite Hw' in Hw. injection Hw as <-.
    assert (n ≠ 0%nat) as Hn.
    { intros ->. rewrite Z.sub_0_r in Hstop. congruence. }
    destruct (Hpos Hn) as [_ Hend].
    repeat split; try done; try lia.
  - injection Hw as <-. simpl. repeat split; done.
Qed.

(** C1 (as amended).  In the current [calculateStreaks], for every series
    and every instant: when today has a positive count the streak ends at
    today; otherwise, when the day before today has one, it ends at that
    day; otherwise the current streak is 0 and both its boundary dates are
    null.  The earlier [calculateStreaks] has no day of grace: with today
    in the series, the streak ends at today when today's count is positive,
    and is 0 with null boundaries when it is not, whatever the day before
    holds. *)
Theorem current_streak_anchor (m : gmap Z Z) (now : Z) :
  (∃ d, calculateStreaksData m now = Some d ∧
        anchor_policy m (utcToday now) d) ∧
  ((active m (utcToday now) →
      startDate m (utcToday now) (utcYesterday now) = Some (utcToday now)) ∧
   (¬ active m (utcToday now) → active m (utcToday now - 1) →
      startDate m (utcToday now) (utcYesterday now)
        = Some (utcToday now - 1)) ∧
   (¬ active m (utcToday now) → ¬ active m (utcToday now - 1) →
      startDate m (utcToday now) (utcYesterday now) = None)) ∧
  (active m (utcToday now) →
     currentStreakEnd (Legacy.calculateStreaksData m now)
       = Some (utcToday now) ∧
     0 < currentStreak (Legacy.calculateStreaksData m now)) ∧
  (is_Some (m !! utcToday now) → ¬ active m (utcToday now) →
     currentStreak (Legacy.calculateStreaksData m now) = 0 ∧
     currentStreakStart (Legacy.calculateStreaksData m now) = None ∧
     currentStreakEnd (Legacy.calculateStreaksData m now) = None).
Proof.
  split; [apply anchor_policy_current|].
  split; [apply startDate_policy|].
  split; [apply legacy_today_active | apply legacy_today_idle].
Qed.

(** C1, as stated, fails on the earlier [calculateStreaks]: with no
    contribution yet today and four the day before, it reports no streak,
    where the policy has a streak that ends the day before. *)
Lemma legacy_has_no_grace_day :
  ¬ anchor_policy graceSeries (utcToday (dateMs 19727))
      (Legacy.calculateStreaksData graceSeries (dateMs 19727)).
Proof.
  intros (_ & Hgrace & _).
  destruct Hgrace as [Hend _].
  - intros (c & Hc & Hpos). vm_compute in Hc. injection Hc as <-. lia.
  - exists 4. split; [vm_compute; reflexivity | lia].
  - vm_compute in Hend. discriminate.
Qed.

Lemma idle_wf (m : gmap Z Z) d :
  series_wf m → ¬ active m d → m !! d = None ∨ m !! d = Some 0.
Proof.
  intros Hwf Hidle. destruct (m !! d) as [c|] eqn:Hc; [|by left].
  right. f_equal. specialize (Hwf d c Hc). simpl in Hwf.
  destruct (decide (0 < c)) as [Hpos|Hneg]; [|lia].
  exfalso. apply Hidle. exists c. by rewrite Hc.
Qed.

Lemma contiguous_run_current (m : gmap Z Z) now :
  ∃ d, calculateStreaksData m now = Some d ∧
       contiguous_run m (startDate m (utcToday now) (utcYesterday now)) d.
Proof.
  destruct (calculateStreaksData_Some m now) as (w & Hw & ->).
  eexists. split; [done|].
  destruct (startDate m (utcToday now) (utcYesterday now))
    as [anchor|] eqn:Hanchor; simpl.
  - apply startDate_active in Hanchor.
    unfold currentStreakWalk in Hw.
    destruct (walk_from_anchor m anchor)
      as (w' & n & Hw' & Hcs & Hrun & Hstop & _ & Hpos).
    rewrite Hw' in Hw. injection Hw as <-.
    assert (n ≠ 0%nat) as Hn.
    { intros ->. rewrite Z.sub_0_r in Hstop. congruence. }
    destruct (Hpos Hn) as [Hstart Hend].
    rewrite Hcs. repeat split; try done; try lia.
    + intros x Hx. apply active_positive_count.
      replace x with (anchor - Z.of_nat (Z.to_nat (anchor - x))) by lia.
      apply Hrun. lia.
    + rewrite active_positive_count. congruence.
  - by injection Hw as <-.
Qed.

(** C2.  In the current [calculateStreaks], for every series and every
    instant, the dates the walk counts are the [currentStreak] consecutive
    days that end at the anchor, each of them in the series with a
    positive count, and the day before them is the first one, going
    backward, that is not: it is absent, or its count is zero.  The
    earlier [calculateStreaks] goes down the recorded dates instead: with
    the calendars of 2022 and 2024, one contribution on 2022-12-31, one on
    2024-01-01 and no date of 2023 in the series, on 2024-01-01 it counts
    a streak of two days from 2022-12-31 to 2024-01-01. *)
Theorem current_streak_contiguous :
  (∀ (m : gmap Z Z) (now : Z),
     ∃ d, calculateStreaksData m now = Some d ∧
          contiguous_run m
            (startDate m (utcToday now) (utcYesterday now)) d ∧
          (series_wf m →
           ∀ anchor,
             startDate m (utcToday now) (utcYesterday now) = Some anchor →
             m !! (anchor - currentStreak d) = None ∨
             m !! (anchor - currentStreak d) = Some 0)) ∧
  (Legacy.calculateStreaksData yearGapSeries (dateMs 19723) =
     MkStreakData 2 1 2 (Some 19357) (Some 19357) (Some 19723)
       (Some 19357) (Some 19357) ∧
   yearGapSeries !! (19723 - 1) = None ∧
   ¬ contiguous_run yearGapSeries (Some 19723)
       (Legacy.calculateStreaksData yearGapSeries (dateMs 19723))).
Proof.
  split.
  - intros m now.
    destruct (contiguous_run_current m now) as (d & Hd & Hrun).
    exists d. repeat split; try done.
    intros Hwf anchor Hanchor. rewrite Hanchor in Hrun.
    destruct Hrun as (_ & _ & Hstop & _). by apply idle_wf.
  - repeat split; try (vm_compute; reflexivity).
    intros (_ & Hall & _).
    destruct (Hall (19723 - 1)) as (c & Hc & _);
      [vm_compute; split; [reflexivity | discriminate]|].
    vm_compute in Hc. discriminate.
Qed.

(** C3.  The longest streak comes from one pass over the dates of the
    series in ascending order.  At each date the running length is one
    more than before exactly when the date has a positive count and is the
    day after the date visited before it; otherwise it falls back to 1
    when the date has a positive count and to 0 when it has not; and the
    best length, with its start and end, is replaced exactly when the
    running length exceeds it.  A date has a positive count when it is
    [active]: recorded in the series with a count above zero.  Both
    versions of [calculateStreaks] report the outcome of this pass. *)
Theorem longest_streak_pass (m : gmap Z Z) (now : Z) :
  StronglySorted Z.lt (sortedDates m) ∧
  (∀ d, d ∈ sortedDates m ↔ is_Some (m !! d)) ∧
  Scan.run m (sortedDates m)
    = foldl (specStep m) Scan.init (sortedDates m) ∧
  (∃ d, calculateStreaksData m now = Some d ∧
        longestStreak d
          = Scan.longestStreak
              (foldl (specStep m) Scan.init (sortedDates m)) ∧
        longestStreakStart d
          = Scan.longestStreakStart
              (foldl (specStep m) Scan.init (sortedDates m)) ∧
        longestStreakEnd d
          = Scan.longestStreakEnd
              (foldl (specStep m) Scan.init (sortedDates m))) ∧
  longestStreak (Legacy.calculateStreaksData m now)
    = Scan.longestStreak (foldl (specStep m) Scan.init (sortedDates m)) ∧
  longestStreakStart (Legacy.calculateStreaksData m now)
    = Scan.longestStreakStart
        (foldl (specStep m) Scan.init (sortedDates m)) ∧
  longestStreakEnd (Legacy.calculateStreaksData m now)
    = Scan.longestStreakEnd (foldl (specStep m) Scan.init (sortedDates m)).
Proof.
  assert (Scan.run m (sortedDates m)
            = foldl (specStep m) Scan.init (sortedDates m)) as Hrun
    by apply foldl_body_specStep, scan_inv_init.
  split; [apply sortedDates_ascending|].
  split; [apply elem_of_sortedDates|].
  split; [done|].
  split.
  - destruct (calculateStreaksData_Some m now) as (w & _ & ->).
    eexists. split; [done|]. simpl. by rewrite Hrun.
  - simpl. by rewrite Hrun.
Qed.

(** C4.  For every series and every instant, in both versions of
    [calculateStreaks]: a current streak of positive length has its start
    and its end, the end not before the start; and so has a longest streak
    of positive length. *)
Theorem streak_boundaries_ordered (m : gmap Z Z) (now : Z) :
  (∃ d, calculateStreaksData m now = Some d ∧
        bounded (currentStreak d) (currentStreakStart d)
          (currentStreakEnd d) ∧
        bounded (longestStreak d) (longestStreakStart d)
          (longestStreakEnd d)) ∧
  bounded (currentStreak (Legacy.calculateStreaksData m now))
    (currentStreakStart (Legacy.calculateStreaksData m now))
    (currentStreakEnd (Legacy.calculateStreaksData m now)) ∧
  bounded (longestStreak (Legacy.calculateStreaksData m now))
    (longestStreakStart (Legacy.calculateStreaksData m now))
    (longestStreakEnd (Legacy.calculateStreaksData m now)).
Proof.
  pose proof (scan_inv_run m (sortedDates m)) as (_ & _ & _ & Hlongest).
  split; [|split].
  - destruct (contiguous_run_current m now) as (d & Hd & Hrun).
    exists d. split; [done|]. split.
    + destruct (startDate m (utcToday now) (utcYesterday now)) as [a|];
        simpl in Hrun.
      * destruct Hrun as (Hpos & _ & _ & Hstart & Hend).
        intros _. eexists _, _. repeat split; [done | done | lia].
      * intros Hpos. lia.
    + destruct (calculateStreaksData_Some m now) as (w & _ & Heq).
      rewrite Heq in Hd. by injection Hd as <-.
  - simpl. apply legacy_bounded, legacy_inv_run.
  - done.
Qed.

(** C5.  For every series and every instant, the current
    [calculateStreaks] never reports a current streak longer than the
    longest streak: the backward walk counts a run of consecutive days
    with positive counts, and the ascending pass meets the same run. *)
Theorem current_streak_le_longest (m : gmap Z Z) (now : Z) :
  ∃ d, calculateStreaksData m now = Some d ∧
       currentStreak d ≤ longestStreak d.
Proof.
  destruct (contiguous_run_current m now) as (d & Hd & Hrun).
  exists d. split; [done|].
  destruct (calculateStreaksData_Some m now) as (w & _ & Heq).
  rewrite Heq in Hd. injection Hd as <-. simpl in *.
  destruct (startDate m (utcToday now) (utcYesterday now)) as [a|];
    simpl in Hrun.
  - destruct Hrun as (Hpos & Hall & _).
    pose proof (scan_longest_covers m (Z.to_nat (Walk.currentStreak w)) a)
      as Hcover.
    rewrite Z2Nat.id in Hcover by lia.
    apply Hcover; [|lia].
    intros k Hk. apply active_positive_count, Hall. lia.
  - pose proof (scan_inv_run m (sortedDates m)) as ((? & ?) & _). lia.
Qed.

(** C6.  For every series, in both versions of [calculateStreaks],
    [totalContributions] is the sum of all the counts of the series, the
    zero ones with the others; it is not negative when no count is; and it
    is zero for the empty series. *)
Theorem total_is_sum_of_counts (m : gmap Z Z) (now : Z) :
  (∃ d, calculateStreaksData m now = Some d ∧
        totalContributions d = seriesTotal m ∧
        (series_wf m → 0 ≤ totalContributions d) ∧
        (m = ∅ → totalContributions d = 0)) ∧
  totalContributions (Legacy.calculateStreaksData m now) = seriesTotal m ∧
  (series_wf m →
   0 ≤ totalContributions (Legacy.calculateStreaksData m now)) ∧
  (m = ∅ → totalContributions (Legacy.calculateStreaksData m now) = 0).
Proof.
  split.
  - destruct (calculateStreaksData_Some m now) as (w & _ & ->).
    eexists. split; [done|]. simpl.
    rewrite sumContributions_seriesTotal.
    split; [done|]. split; [apply seriesTotal_nonneg|].
    intros ->. apply seriesTotal_empty.
  - simpl. rewrite sumContributions_seriesTotal.
    split; [done|]. split; [apply seriesTotal_nonneg|].
    intros ->. apply seriesTotal_empty.
Qed.

Lemma recordDays_last_wins (obs : list ContributionDay) :
  last_wins obs (recordDays ∅ obs).
Proof.
  intros d. rewrite recordDays_lookup, lookup_empty. split.
  - intros Hnone. apply lastCount_None in Hnone. by rewrite Hnone.
  - intros before day after -> Hd Hafter.
    rewrite lastCount_app. simpl.
    apply lastCount_None in Hafter. rewrite Hafter.
    by rewrite decide_True.
Qed.

(** C7.  For every answer of the upstream and every list of years, the
    aggregation gives a map keyed by date in which a date that no year
    emits is absent, and a date that several observations emit has the
    count of the one processed last; so, of two years that emit the same
    date, the one processed later gives the value.  The earlier
    [fetchStreak], when its requests are answered, builds its map the same
    way. *)
Theorem aggregation_last_wins (user : gmap Z YearData) (years : list Z) :
  last_wins (observations user years) (combineYears user years) ∧
  (∀ d earlier year later c,
     years = earlier ++ year :: later →
     lastCount d (yearObservations user year) = Some c →
     (∀ day, day ∈ observations user later → date day ≠ d) →
     combineYears user years !! d = Some c) ∧
  (∀ env username token n series n',
     LegacyFetch.collectYears env username token years ∅ n
       = (Returned series, n') →
     last_wins (legacyObservations env username token years) series).
Proof.
  split; [|split].
  - unfold combineYears. rewrite foldl_years_recordDays.
    apply recordDays_last_wins.
  - intros d earlier year later c -> Hyear Hlater.
    rewrite combineYears_lookup, observations_app, observations_cons.
    rewrite !lastCount_app.
    apply lastCount_None in Hlater. by rewrite Hlater, Hyear.
  - intros env username token n series n' Hret.
    apply collectYears_returned in Hret as ->.
    apply recordDays_last_wins.
Qed.

(** C8.  The failures of [fetchStreak], in both versions, at a user the
    upstream does not know and at a request that fails: each is one
    [CustomError] with its message, its tag and its optional secondary
    message; a missing identifier is refused with no request sent; and the
    answer without a user, which the helper tags [USER_NOT_FOUND], leaves
    [fetchStreak] with the tag [GRAPHQL_ERROR] of a failed request. *)
Theorem subject_not_found_is_retagged :
  fetchStreak noUserEnv None "token" 0%nat
    = (Threw (ThrownCustom
                {| message := "Missing username parameter";
                   type := USER_NOT_FOUND;
                   secondaryMessage := None |}), 0%nat) ∧
  fetchContributionYears noUserEnv "octocat" "token" 0%nat
    = (Threw (ThrownCustom
                {| message := "Could not fetch user.";
                   type := USER_NOT_FOUND;
                   secondaryMessage := None |}), 1%nat) ∧
  fetchStreak noUserEnv (Some "octocat") "token" 0%nat
    = (Threw (ThrownCustom
                {| message := "Could not fetch user.";
                   type := GRAPHQL_ERROR;
                   secondaryMessage := None |}), 1%nat) ∧
  fetchStreak networkDownEnv (Some "octocat") "token" 0%nat
    = (Threw (ThrownCustom
                {| message := "Network Error";
                   type := GRAPHQL_ERROR;
                   secondaryMessage := None |}), 1%nat) ∧
  LegacyFetch.fetchStreak noUserEnv (Some "octocat") "token" 0%nat
    = fetchStreak noUserEnv (Some "octocat") "token" 0%nat ∧
  LegacyFetch.fetchStreak networkDownEnv (Some "octocat") "token" 0%nat
    = fetchStreak networkDownEnv (Some "octocat") "token" 0%nat.
Proof. repeat split; reflexivity. Qed.

Lemma streakData_same_day (fuel : nat) (m : gmap Z Z) now1 now2 :
  utcToday now1 = utcToday now2 →
  streakData fuel m now1 = streakData fuel m now2.
Proof.
  intros Hday. unfold streakData, utcYesterday. by rewrite Hday.
Qed.

(** C9.  Both versions of [calculateStreaks] read the clock once, and
    what they return depends on that reading through its UTC date only:
    two runs on the same series whose one reading falls on the same UTC
    date return the same record, whatever their clocks show later. *)
Theorem calculateStreaks_deterministic (m : gmap Z Z)
    (clock1 clock2 : nat → Z) (k1 k2 : nat) :
  utcToday (clock1 k1) = utcToday (clock2 k2) →
  (calculateStreaksClocked m clock1 k1).1
    = (calculateStreaksClocked m clock2 k2).1 ∧
  (calculateStreaksClocked m clock1 k1).2 = S k1 ∧
  (Legacy.calculateStreaksClocked m clock1 k1).1
    = (Legacy.calculateStreaksClocked m clock2 k2).1 ∧
  (Legacy.calculateStreaksClocked m clock1 k1).2 = S k1.
Proof.
  intros Hday.
  unfold calculateStreaksClocked, Legacy.calculateStreaksClocked, readClock.
  simpl. repeat split.
  - unfold calculateStreaks, calculateStreaksData.
    by rewrite (streakData_same_day _ _ _ _ Hday).
  - unfold Legacy.calculateStreaks, Legacy.calculateStreaksData.
    by rewrite Hday.
Qed.

Lemma calculateStreaks_deterministic_witness :
  (calculateStreaksClocked scenario runningClock 0%nat).1
    = (calculateStreaksClocked scenario stoppedClock 3%nat).1 ∧
  (calculateStreaksClocked scenario runningClock 0%nat).2 = 1%nat ∧
  (Legacy.calculateStreaksClocked scenario runningClock 0%nat).1
    = (Legacy.calculateStreaksClocked scenario stoppedClock 3%nat).1 ∧
  (Legacy.calculateStreaksClocked scenario runningClock 0%nat).2 = 1%nat.
Proof.
  apply (calculateStreaks_deterministic scenario runningClock stoppedClock
           0%nat 3%nat).
  vm_compute. reflexivity.
Defined.

Lemma streakData_budget (m : gmap Z Z) now (extra : nat) :
  streakData (walkBudget m + extra) m now = calculateStreaksData m now.
Proof.
  unfold calculateStreaksData, streakData.
  destruct (startDate m (utcToday now) (utcYesterday now)) as [anchor|];
    [|done].
  unfold currentStreakWalk.
  destruct (loop_within_budget m (Walk.init anchor)) as [w Hw].
  rewrite Hw.
  by rewrite (loop_fuel_mono m (walkBudget m) (walkBudget m + extra) _ w Hw)
    by lia.
Qed.

(** C10.  The current [calculateStreaks], with [formatDateForDisplay], is
    total: for every series and every instant it returns a record, and the
    backward walk reaches its [break] within one turn for each date of the
    series and one more, from any state; a larger budget of turns changes
    nothing.  The empty series gives zeros and empty strings. *)
Theorem calculateStreaks_total (m : gmap Z Z) (now : Z) :
  (∃ r, calculateStreaks m now = Some r) ∧
  (∀ s, ∃ w, Walk.loop (S (size m)) m s = Some w) ∧
  (∀ extra : nat,
     streakData (S (size m) + extra) m now = calculateStreaksData m now) ∧
  calculateStreaks ∅ now
    = Some {| r_currentStreak := 0; r_longestStreak := 0;
              r_totalContributions := 0; r_firstContribution := "";
              r_currentStreakStart := ""; r_currentStreakEnd := "";
              r_longestStreakStart := ""; r_longestStreakEnd := "" |} ∧
  (∀ includeYear, formatDateForDisplay None includeYear = "").
Proof.
  split; [|split; [|split; [|split]]].
  - unfold calculateStreaks.
    destruct (calculateStreaksData_Some m now) as (w & _ & ->). simpl. eauto.
  - intros s. apply (loop_within_budget m s).
  - apply streakData_budget.
  - reflexivity.
  - done.
Qed.

(** * Further properties of the calculator *)

Lemma idle_not_active (m : gmap Z Z) : idle m ↔ ∀ d, ¬ active m d.
Proof.
  split.
  - intros Hidle d (c & Hc & Hpos). specialize (Hidle d c Hc). simpl in *. lia.
  - intros Hnone d c Hc. simpl.
    destruct (decide (0 < c)) as [Hpos|]; [|lia].
    exfalso. apply (Hnone d). by exists c.
Qed.

Lemma findFirst_Some (m : gmap Z Z) l d :
  findFirstContribution m l = Some d →
  ∃ l1 l2, l = l1 ++ d :: l2 ∧ positive_count (m !! d) = true ∧
           Forall (λ x, positive_count (m !! x) = false) l1.
Proof.
  induction l as [|x l IH]; [done|]. simpl.
  destruct (positive_count (m !! x)) eqn:Hx.
  - intros [= ->]. exists [], l. by repeat split.
  - intros Hd. destruct (IH Hd) as (l1 & l2 & -> & Hpos & Hall).
    exists (x :: l1), l2. repeat split; [done|]. by constructor.
Qed.

Lemma findFirst_None (m : gmap Z Z) l :
  findFirstContribution m l = None ↔
  Forall (λ x, positive_count (m !! x) = false) l.
Proof.
  induction l as [|x l IH]; simpl; [by split|].
  destruct (positive_count (m !! x)) eqn:Hx.
  - split; [done|]. intros Hall. apply Forall_cons in Hall as [? _]. congruence.
  - rewrite IH. split; [by constructor|]. by intros [_ ?]%Forall_cons.
Qed.

Lemma idle_dates (m : gmap Z Z) l :
  (∀ d, ¬ active m d) → Forall (λ x, positive_count (m !! x) = false) l.
Proof.
  intros Hnone. apply Forall_forall. intros x _.
  apply not_true_is_false. rewrite <- active_positive_count. apply Hnone.
Qed.

(** X1.  In both versions the first contribution is the earliest date of
    the series with a positive count, and it is null exactly when no date
    has one. *)
Theorem first_contribution_earliest (m : gmap Z Z) (now : Z) :
  ∃ d, calculateStreaksData m now = Some d ∧
       firstContribution (Legacy.calculateStreaksData m now)
         = firstContribution d ∧
       match firstContribution d with
       | Some first => active m first ∧ ∀ x, active m x → first ≤ x
       | None => ∀ x, ¬ active m x
       end.
Proof.
  destruct (calculateStreaksData_Some m now) as (w & _ & ->).
  eexists. split; [done|]. split; [done|]. simpl.
  destruct (findFirstContribution m (sortedDates m)) as [first|] eqn:Hfirst.
  - apply findFirst_Some in Hfirst as (l1 & l2 & Hsplit & Hpos & Hall).
    split; [by apply active_positive_count|].
    intros x Hx.
    assert (x ∈ sortedDates m) as Hin.
    { apply elem_of_sortedDates. destruct Hx as (c & -> & _). eauto. }
    pose proof (sortedDates_ascending m) as Hs. rewrite Hsplit in Hs, Hin.
    apply elem_of_app in Hin as [Hin|Hin].
    + rewrite Forall_forall in Hall. specialize (Hall x Hin).
      apply active_positive_count in Hx. congruence.
    + apply elem_of_cons in Hin as [->|Hin]; [lia|].
      apply StronglySorted_app_1_r, StronglySorted_cons in Hs as [Hgt _].
      rewrite Forall_forall in Hgt. specialize (Hgt x Hin). lia.
  - apply findFirst_None in Hfirst. rewrite Forall_forall in Hfirst.
    intros x Hx.
    assert (x ∈ sortedDates m) as Hin.
    { apply elem_of_sortedDates. destruct Hx as (c & -> & _). eauto. }
    apply active_positive_count in Hx. specialize (Hfirst x Hin). congruence.
Qed.

Lemma scan_idle (m : gmap Z Z) l s :
  Forall (λ x, positive_count (m !! x) = false) l →
  Scan.longestStreak (foldl (Scan.body m) s l) = Scan.longestStreak s ∧
  Scan.longestStreakStart (foldl (Scan.body m) s l)
    = Scan.longestStreakStart s ∧
  Scan.longestStreakEnd (foldl (Scan.body m) s l) = Scan.longestStreakEnd s.
Proof.
  intros Hall. revert s.
  induction Hall as [|x l Hx _ IH]; intros s; [done|].
  simpl. destruct (IH (Scan.body m s x)) as (-> & -> & ->).
  unfold Scan.body. by rewrite Hx.
Qed.

Lemma legacy_idle (m : gmap Z Z) today l s :
  Forall (λ x, positive_count (m !! x) = false) l →
  Legacy.currentStreak (foldl (Legacy.body m today) s l)
    = Legacy.currentStreak s ∧
  Legacy.currentStreakStart (foldl (Legacy.body m today) s l)
    = Legacy.currentStreakStart s ∧
  Legacy.currentStreakEnd (foldl (Legacy.body m today) s l)
    = Legacy.currentStreakEnd s.
Proof.
  intros Hall. revert s.
  induction Hall as [|x l Hx _ IH]; intros s; [done|].
  simpl. destruct (IH (Legacy.body m today s x)) as (-> & -> & ->).
  unfold Legacy.body. rewrite Hx.
  by repeat match goal with
            | |- context [if ?b then _ else _] => destruct b
            end.
Qed.

(** X2.  When no count of the series is positive, both versions report a
    current streak of 0, a longest streak of 0, no first contribution and
    no boundary date; this covers the empty series. *)
Theorem idle_series_has_no_streak (m : gmap Z Z) (now : Z) :
  idle m →
  calculateStreaksData m now
    = Some (MkStreakData 0 0 (seriesTotal m) None None None None None) ∧
  Legacy.calculateStreaksData m now
    = MkStreakData 0 0 (seriesTotal m) None None None None None.
Proof.
  intros Hwf. pose proof (proj1 (idle_not_active m) Hwf) as Hidle.
  pose proof (idle_dates m (sortedDates m) Hidle) as Hdates.
  pose proof (scan_idle m (sortedDates m) Scan.init Hdates) as (Hl & Hls & Hle).
  pose proof (proj2 (findFirst_None m (sortedDates m)) Hdates) as Hfirst.
  split.
  - destruct (calculateStreaksData_Some m now) as (w & Hw & ->).
    destruct (startDate_policy m (utcToday now)) as (_ & _ & Hnone).
    unfold utcYesterday in Hw. rewrite Hnone in Hw by apply Hidle.
    injection Hw as <-.
    unfold Scan.run. rewrite Hl, Hls, Hle, Hfirst.
    by rewrite sumContributions_seriesTotal.
  - unfold Legacy.calculateStreaksData, Legacy.run, Scan.run.
    assert (Forall (λ x, positive_count (m !! x) = false)
              (reverse (sortedDates m))) as Hrev by by apply Forall_reverse.
    destruct (legacy_idle m (utcToday now) _ Legacy.init Hrev)
      as (-> & -> & ->).
    rewrite Hl, Hls, Hle, Hfirst.
    by rewrite sumContributions_seriesTotal.
Qed.

Lemma quietSeries_idle : idle quietSeries.
Proof.
  unfold idle, quietSeries.
  repeat (apply map_Forall_insert_2; [simpl; lia|]).
  apply map_Forall_empty.
Qed.

Lemma idle_series_has_no_streak_witness :
  calculateStreaksData quietSeries (dateMs 19727)
    = Some (MkStreakData 0 0 (seriesTotal quietSeries)
              None None None None None) ∧
  Legacy.calculateStreaksData quietSeries (dateMs 19727)
    = MkStreakData 0 0 (seriesTotal quietSeries) None None None None None.
Proof.
  apply (idle_series_has_no_streak quietSeries (dateMs 19727)).
  apply quietSeries_idle.
Defined.

(** ** The longest streak as the longest run *)

Lemma run_inv_init (m : gmap Z Z) : run_inv m Scan.init.
Proof. unfold run_inv. simpl. repeat split; (lia || done). Qed.

Lemma active_run_single (m : gmap Z Z) d :
  positive_count (m !! d) = true → active_run m d d.
Proof.
  intros Hd x Hx. replace x with d by lia. by apply active_positive_count.
Qed.

Lemma active_run_snoc (m : gmap Z Z) st p :
  active_run m st p → positive_count (m !! (p + 1)) = true →
  active_run m st (p + 1).
Proof.
  intros Hrun Hd x Hx.
  destruct (decide (x = p + 1)) as [->|];
    [by apply active_positive_count | apply Hrun; lia].
Qed.

Lemma run_inv_body (m : gmap Z Z) s date :
  run_inv m s → run_inv m (Scan.body m s date).
Proof.
  intros (Ht0 & Hl0 & Hnone & Htemp & Hbest).
  rewrite scan_body_unfold.
  destruct (positive_count (m !! date)) eqn:Hpos; cbv zeta.
  - assert (∃ temp st,
              (if match Scan.prevDate s with
                  | None => true
                  | Some prev => prev + 1 =? date
                  end
               then Scan.tempStreak s + 1 else 1) = temp ∧
              (if match Scan.prevDate s with
                  | None => true
                  | Some prev => prev + 1 =? date
                  end
               then (if Scan.tempStreak s =? 0 then Some date
                     else Scan.tempStreakStart s)
               else Some date) = Some st ∧
              0 < temp ∧ date - st + 1 = temp ∧ active_run m st date)
      as (temp & st & -> & -> & Hpos' & Hlen & Hrun).
    { destruct (Scan.prevDate s) as [prev|] eqn:Hprev.
      - destruct (Z.eqb_spec (prev + 1) date) as [<-|Hnext].
        + destruct (Z.eqb_spec (Scan.tempStreak s) 0) as [H0|H0].
          * exists (Scan.tempStreak s + 1), (prev + 1).
            split; [done|]. split; [done|]. split; [lia|]. split; [lia|].
            by apply active_run_single.
          * destruct Htemp as (st & p & Hst & [= <-] & Hlen & Hrun); [lia|].
            exists (Scan.tempStreak s + 1), st.
            split; [done|]. split; [done|]. split; [lia|]. split; [lia|].
            by apply active_run_snoc.
        + exists 1, date.
          split; [done|]. split; [done|]. split; [lia|]. split; [lia|].
          by apply active_run_single.
      - rewrite (Hnone eq_refl). simpl.
        exists (0 + 1), date.
        split; [done|]. split; [done|]. split; [lia|]. split; [lia|].
        by apply active_run_single. }
    destruct (Z.ltb_spec (Scan.longestStreak s) temp);
      unfold run_inv; simpl; repeat split; try lia; try done;
      try (intros _; by eexists _, _).
  - unfold run_inv; simpl. repeat split; try lia; try done.
Qed.

Lemma run_inv_run (m : gmap Z Z) dates : run_inv m (Scan.run m dates).
Proof.
  unfold Scan.run. generalize (run_inv_init m). generalize Scan.init.
  induction dates as [|d dates IH]; intros s Hs; [done|].
  simpl. apply IH. by apply run_inv_body.
Qed.

Lemma active_run_covers (m : gmap Z Z) st e :
  active_run m st e → st ≤ e + 1 →
  e - st + 1 ≤ Scan.longestStreak (Scan.run m (sortedDates m)).
Proof.
  intros Hrun Hle.
  destruct (decide (e - st + 1 = 0)) as [->|Hne].
  { by destruct (run_inv_run m (sortedDates m)) as (_ & ? & _). }
  pose proof (scan_longest_covers m (Z.to_nat (e - st + 1)) e) as Hcover.
  rewrite Z2Nat.id in Hcover by lia.
  apply Hcover; [|lia].
  intros k Hk. apply active_positive_count, Hrun. lia.
Qed.

(** X3.  When the longest streak is positive, its two boundary dates
    delimit a stretch of exactly [longestStreak] consecutive days that all
    have a positive count, and the stretch cannot be extended: the day
    before its start and the day after its end have none.  Both versions
    report this same streak. *)
Theorem longest_streak_is_a_run (m : gmap Z Z) (now : Z) :
  ∃ d, calculateStreaksData m now = Some d ∧
       longestStreak (Legacy.calculateStreaksData m now) = longestStreak d ∧
       longestStreakStart (Legacy.calculateStreaksData m now)
         = longestStreakStart d ∧
       longestStreakEnd (Legacy.calculateStreaksData m now)
         = longestStreakEnd d ∧
       0 ≤ longestStreak d ∧
       (0 < longestStreak d →
        ∃ first last,
          longestStreakStart d = Some first ∧
          longestStreakEnd d = Some last ∧
          last - first + 1 = longestStreak d ∧
          active_run m first last ∧
          ¬ active m (first - 1) ∧ ¬ active m (last + 1)).
Proof.
  destruct (calculateStreaksData_Some m now) as (w & _ & ->).
  eexists. split; [done|]. simpl. repeat split.
  - by destruct (run_inv_run m (sortedDates m)) as (_ & ? & _).
  - intros Hpos.
    destruct (run_inv_run m (sortedDates m)) as (_ & _ & _ & _ & Hbest).
    destruct (Hbest Hpos) as (first & last & Hs & He & Hlen & Hrun).
    exists first, last. repeat split; try done.
    + intros Hbefore.
      assert (active_run m (first - 1) last) as Hlonger.
      { intros x Hx. destruct (decide (x = first - 1)) as [->|]; [done|].
        apply Hrun. lia. }
      pose proof (active_run_covers m (first - 1) last Hlonger). lia.
    + intros Hafter.
      assert (active_run m first (last + 1)) as Hlonger.
      { intros x Hx. destruct (decide (x = last + 1)) as [->|]; [done|].
        apply Hrun. lia. }
      pose proof (active_run_covers m first (last + 1) Hlonger). lia.
Qed.

(** X4.  No stretch of consecutive days with positive counts is longer
    than the longest streak that both versions report: a stretch from
    [first] to [last] has at most [longestStreak] days. *)
Theorem longest_streak_is_maximal (m : gmap Z Z) (now : Z)
    (first last : Z) :
  first ≤ last → active_run m first last →
  ∃ d, calculateStreaksData m now = Some d ∧
       last - first + 1 ≤ longestStreak d ∧
       last - first + 1 ≤ longestStreak (Legacy.calculateStreaksData m now).
Proof.
  intros Hle Hrun.
  destruct (calculateStreaksData_Some m now) as (w & _ & ->).
  eexists. split; [done|]. simpl.
  split; apply active_run_covers; (done || lia).
Qed.

Lemma scenario_run : active_run scenario 19723 19724.
Proof.
  intros x Hx.
  assert (x = 19723 ∨ x = 19724) as [->| ->] by lia.
  - exists 3. split; [vm_compute; reflexivity | lia].
  - exists 1. split; [vm_compute; reflexivity | lia].
Qed.

Lemma longest_streak_is_maximal_witness :
  ∃ d, calculateStreaksData scenario (dateMs 19727) = Some d ∧
       19724 - 19723 + 1 ≤ longestStreak d ∧
       19724 - 19723 + 1
         ≤ longestStreak (Legacy.calculateStreaksData scenario (dateMs 19727)).
Proof.
  apply (longest_streak_is_maximal scenario (dateMs 19727) 19723 19724).
  - lia.
  - apply scenario_run.
Defined.

(** ** Bounds *)

Lemma scan_length_bound (m : gmap Z Z) l :
  ∀ s n,
    0 ≤ n → Scan.tempStreak s ≤ n → Scan.longestStreak s ≤ n →
    Scan.tempStreak (foldl (Scan.body m) s l) ≤ n + Z.of_nat (length l) ∧
    Scan.longestStreak (foldl (Scan.body m) s l) ≤ n + Z.of_nat (length l).
Proof.
  induction l as [|x l IH]; intros s n Hn Ht Hl; [simpl; lia|].
  assert (Scan.tempStreak (Scan.body m s x) ≤ n + 1 ∧
          Scan.longestStreak (Scan.body m s x) ≤ n + 1) as [Ht' Hl'].
  { rewrite scan_body_unfold. cbv zeta.
    repeat match goal with
           | |- context [if ?b then _ else _] => destruct b
           end; simpl; lia. }
  destruct (IH _ (n + 1) ltac:(lia) Ht' Hl') as [? ?].
  simpl length. simpl foldl. lia.
Qed.

Lemma legacy_length_bound (m : gmap Z Z) today l :
  ∀ s,
    Legacy.currentStreak (foldl (Legacy.body m today) s l)
      ≤ Legacy.currentStreak s + Z.of_nat (length l).
Proof.
  induction l as [|x l IH]; intros s; [simpl; lia|].
  assert (Legacy.currentStreak (Legacy.body m today s x)
            ≤ Legacy.currentStreak s + 1) as Hstep.
  { unfold Legacy.body.
    repeat match goal with
           | |- context [if ?b then _ else _] => destruct b
           end; simpl; lia. }
  specialize (IH (Legacy.body m today s x)).
  simpl length. simpl foldl. lia.
Qed.

(** X5.  The lengths are bounded: in the current version the current
    streak is between 0 and the longest streak; in both versions no streak
    is longer than the number of dates of the series. *)
Theorem streak_lengths_bounded (m : gmap Z Z) (now : Z) :
  ∃ d, calculateStreaksData m now = Some d ∧
       0 ≤ currentStreak d ≤ longestStreak d ∧
       longestStreak d ≤ Z.of_nat (size m) ∧
       0 ≤ currentStreak (Legacy.calculateStreaksData m now)
         ≤ Z.of_nat (size m) ∧
       longestStreak (Legacy.calculateStreaksData m now)
         ≤ Z.of_nat (size m).
Proof.
  destruct (contiguous_run_current m now) as (d & Hd & Hrun).
  exists d. split; [done|].
  destruct (calculateStreaksData_Some m now) as (w & _ & Heq).
  rewrite Heq in Hd. injection Hd as <-. simpl in *.
  pose proof (scan_length_bound m (sortedDates m) Scan.init 0) as [_ Hsize];
    [done | done | done |].
  rewrite sortedDates_length in Hsize. fold (Scan.run m (sortedDates m)) in Hsize.
  pose proof (legacy_length_bound m (utcToday now) (reverse (sortedDates m))
                Legacy.init) as Hlegacy.
  rewrite length_reverse, sortedDates_length in Hlegacy. simpl in Hlegacy.
  destruct (legacy_inv_run m (utcToday now)) as (Hl0 & _).
  unfold Legacy.run in *.
  repeat split; try lia.
  - destruct (startDate m (utcToday now) (utcYesterday now)); simpl in Hrun;
      lia.
  - destruct (startDate m (utcToday now) (utcYesterday now)) as [a|];
      simpl in Hrun.
    + destruct Hrun as (Hpos & Hall & _).
      pose proof (active_run_covers m (a - Walk.currentStreak w + 1) a)
        as Hcover.
      assert (active_run m (a - Walk.currentStreak w + 1) a) as Hactive
        by (intros x Hx; apply Hall; lia).
      specialize (Hcover Hactive). lia.
    + destruct (run_inv_run m (sortedDates m)) as (_ & ? & _). lia.
Qed.

(** ** Dates after today *)

Lemma loop_agree (m1 m2 : gmap Z Z) fuel :
  ∀ s, (∀ d, d ≤ Walk.checkDate s → m1 !! d = m2 !! d) →
       Walk.loop fuel m1 s = Walk.loop fuel m2 s.
Proof.
  induction fuel as [|fuel IH]; intros s Hagree; [done|].
  simpl. unfold Walk.body. rewrite (Hagree (Walk.checkDate s)) by lia.
  destruct (positive_count (m2 !! Walk.checkDate s)); [|done].
  apply IH. simpl. intros d Hd. apply Hagree. lia.
Qed.

Lemma walk_agree (m1 m2 : gmap Z Z) s w1 w2 :
  (∀ d, d ≤ Walk.checkDate s → m1 !! d = m2 !! d) →
  Walk.loop (walkBudget m1) m1 s = Some w1 →
  Walk.loop (walkBudget m2) m2 s = Some w2 →
  w1 = w2.
Proof.
  intros Hagree H1 H2.
  apply (loop_fuel_mono _ _ (walkBudget m1 + walkBudget m2)) in H1; [|lia].
  apply (loop_fuel_mono _ _ (walkBudget m1 + walkBudget m2)) in H2; [|lia].
  rewrite (loop_agree m1 m2 _ s Hagree) in H1. congruence.
Qed.

Lemma legacy_skips_future (m : gmap Z Z) today l :
  ∀ s, foldl (Legacy.body m today) s l
       = foldl (Legacy.body m today) s (filter (λ x, x ≤ today) l).
Proof.
  induction l as [|x l IH]; intros s; [done|].
  rewrite filter_cons. destruct (decide (x ≤ today)) as [Hx|Hx]; simpl.
  - apply IH.
  - rewrite IH. f_equal. unfold Legacy.body.
    by replace (today <? x) with true by (symmetry; apply Z.ltb_lt; lia).
Qed.

Lemma legacy_body_agree (m1 m2 : gmap Z Z) today l :
  agree_until today m1 m2 → Forall (λ x, x ≤ today) l →
  ∀ s, foldl (Legacy.body m1 today) s l = foldl (Legacy.body m2 today) s l.
Proof.
  intros Hagree Hall. induction Hall as [|x l Hx _ IH]; intros s; [done|].
  simpl. rewrite IH. f_equal. unfold Legacy.body.
  by rewrite (Hagree x Hx).
Qed.

Lemma StronglySorted_filter_lt (P : Z → Prop) `{∀ x, Decision (P x)}
    (l : list Z) :
  StronglySorted Z.lt l → StronglySorted Z.lt (filter P l).
Proof.
  induction 1 as [|x l Hs IH Hall]; [constructor|].
  rewrite filter_cons. destruct (decide (P x)); [|done].
  constructor; [done|].
  rewrite Forall_forall in Hall |- *.
  intros y Hy. apply Hall. by apply list_elem_of_filter in Hy as [_ ?].
Qed.

(** The recorded dates up to [today], in ascending order. *)
Lemma past_dates_agree (m1 m2 : gmap Z Z) today :
  agree_until today m1 m2 →
  filter (λ x, x ≤ today) (sortedDates m1)
    = filter (λ x, x ≤ today) (sortedDates m2).
Proof.
  intros Hagree.
  apply (StronglySorted_unique_strong Z.lt).
  - intros x1 x2 _ _ ? ?. lia.
  - apply StronglySorted_filter_lt, sortedDates_ascending.
  - apply StronglySorted_filter_lt, sortedDates_ascending.
  - apply NoDup_Permutation.
    + apply NoDup_filter, sortedDates_NoDup.
    + apply NoDup_filter, sortedDates_NoDup.
    + intros x. rewrite !list_elem_of_filter, !elem_of_sortedDates.
      split; intros [Hx Hin]; (split; [done|]).
      * by rewrite <- (Hagree x Hx).
      * by rewrite (Hagree x Hx).
Qed.

Lemma legacy_run_agree (m1 m2 : gmap Z Z) today :
  agree_until today m1 m2 →
  Legacy.run m1 today (sortedDates m1) = Legacy.run m2 today (sortedDates m2).
Proof.
  intros Hagree. unfold Legacy.run.
  rewrite (legacy_skips_future m1), (legacy_skips_future m2).
  rewrite !filter_reverse, (past_dates_agree m1 m2 today Hagree).
  apply legacy_body_agree; [done|].
  apply Forall_reverse, Forall_forall.
  intros x Hx. by apply list_elem_of_filter in Hx as [? _].
Qed.

(** X6.  The current streak does not look at dates after today: two
    series that hold the same for every date up to today have the same
    current streak, with the same boundary dates, in both versions. *)
Theorem current_streak_ignores_future (m1 m2 : gmap Z Z) (now : Z) :
  agree_until (utcToday now) m1 m2 →
  ∃ d1 d2,
    calculateStreaksData m1 now = Some d1 ∧
    calculateStreaksData m2 now = Some d2 ∧
    currentStreak d1 = currentStreak d2 ∧
    currentStreakStart d1 = currentStreakStart d2 ∧
    currentStreakEnd d1 = currentStreakEnd d2 ∧
    currentStreak (Legacy.calculateStreaksData m1 now)
      = currentStreak (Legacy.calculateStreaksData m2 now) ∧
    currentStreakStart (Legacy.calculateStreaksData m1 now)
      = currentStreakStart (Legacy.calculateStreaksData m2 now) ∧
    currentStreakEnd (Legacy.calculateStreaksData m1 now)
      = currentStreakEnd (Legacy.calculateStreaksData m2 now).
Proof.
  intros Hagree.
  destruct (calculateStreaksData_Some m1 now) as (w1 & Hw1 & ->).
  destruct (calculateStreaksData_Some m2 now) as (w2 & Hw2 & ->).
  eexists _, _. split; [done|]. split; [done|]. simpl.
  assert (w1 = w2) as ->.
  { rewrite !startDate_cases in Hw1, Hw2. unfold utcYesterday in *.
    rewrite <- (Hagree (utcToday now)) in Hw2 by lia.
    rewrite <- (Hagree (utcToday now - 1)) in Hw2 by lia.
    destruct (positive_count (m1 !! utcToday now));
      [|destruct (positive_count (m1 !! (utcToday now - 1)))];
      unfold currentStreakWalk in Hw1, Hw2.
    - apply (walk_agree m1 m2 (Walk.init (utcToday now)) w1 w2);
        [|done|done].
      intros d Hd. by apply Hagree.
    - apply (walk_agree m1 m2 (Walk.init (utcToday now - 1)) w1 w2);
        [|done|done].
      simpl. intros d Hd. apply Hagree. lia.
    - congruence. }
  rewrite (legacy_run_agree m1 m2 _ Hagree). by repeat split.
Qed.

Lemma aheadSeries_agrees : agree_until 19727 scenario aheadSeries.
Proof.
  intros d Hd. unfold aheadSeries. by rewrite lookup_insert_ne by lia.
Qed.

Lemma current_streak_ignores_future_witness :
  ∃ d1 d2,
    calculateStreaksData scenario (dateMs 19727) = Some d1 ∧
    calculateStreaksData aheadSeries (dateMs 19727) = Some d2 ∧
    currentStreak d1 = currentStreak d2 ∧
    currentStreakStart d1 = currentStreakStart d2 ∧
    currentStreakEnd d1 = currentStreakEnd d2 ∧
    currentStreak (Legacy.calculateStreaksData scenario (dateMs 19727))
      = currentStreak (Legacy.calculateStreaksData aheadSeries (dateMs 19727)) ∧
    currentStreakStart (Legacy.calculateStreaksData scenario (dateMs 19727))
      = currentStreakStart
          (Legacy.calculateStreaksData aheadSeries (dateMs 19727)) ∧
    currentStreakEnd (Legacy.calculateStreaksData scenario (dateMs 19727))
      = currentStreakEnd
          (Legacy.calculateStreaksData aheadSeries (dateMs 19727)).
Proof.
  apply (current_streak_ignores_future scenario aheadSeries (dateMs 19727)).
  apply aheadSeries_agrees.
Defined.

(** ** The two versions on a complete calendar *)

Lemma sorted_max_last (l : list Z) a :
  StronglySorted Z.lt l → a ∈ l → (∀ x, x ∈ l → x ≤ a) →
  ∃ l', l = l' ++ [a].
Proof.
  intros Hs Hin Hmax.
  apply list_elem_of_split in Hin as (l1 & l2 & ->).
  exists l1. destruct l2 as [|x l2]; [done|]. exfalso.
  assert (x ≤ a).
  { apply Hmax. apply elem_of_app. right.
    apply elem_of_cons. right. apply elem_of_cons. by left. }
  apply StronglySorted_app_1_r, StronglySorted_cons in Hs as [Hall _].
  apply Forall_cons in Hall as [? _]. lia.
Qed.

Lemma legacy_body_counts (m : gmap Z Z) today s a :
  a ≤ today → Legacy.streaking s = true →
  positive_count (m !! a) = true →
  Legacy.body m today s a =
  Legacy.State (Legacy.currentStreak s + 1) (Some a)
    (Some (default a (Legacy.currentStreakEnd s))) true.
Proof.
  intros Ha Hs Hpos. unfold Legacy.body.
  replace (today <? a) with false by (symmetry; apply Z.ltb_ge; lia).
  rewrite Hs, Hpos. by destruct (Legacy.currentStreakEnd s).
Qed.

Lemma legacy_body_stops (m : gmap Z Z) today s a :
  a ≤ today → Legacy.streaking s = true →
  positive_count (m !! a) = false →
  Legacy.body m today s a =
  Legacy.State (Legacy.currentStreak s) (Legacy.currentStreakStart s)
    (Legacy.currentStreakEnd s) false.
Proof.
  intros Ha Hs Hpos. unfold Legacy.body.
  replace (today <? a) with false by (symmetry; apply Z.ltb_ge; lia).
  rewrite Hs, Hpos.
  destruct (Z.eqb_spec a today), (Z.ltb_spec a today); simpl; (done || lia).
Qed.

(** On the recorded dates up to [a], with the day that stops the count
    recorded whenever an older date is, the earlier loop counts the [n]
    days that end at [a]. *)
Lemma legacy_counts_down (m : gmap Z Z) today (n : nat) :
  ∀ a l s,
    a ≤ today → StronglySorted Z.lt l →
    (∀ x, x ∈ l ↔ is_Some (m !! x) ∧ x ≤ a) →
    Legacy.streaking s = true →
    (∀ k : nat, (k < n)%nat →
       positive_count (m !! (a - Z.of_nat k)) = true) →
    positive_count (m !! (a - Z.of_nat n)) = false →
    (∀ x, x ∈ l → x ≤ a - Z.of_nat n → is_Some (m !! (a - Z.of_nat n))) →
    Legacy.currentStreak (foldl (Legacy.body m today) s (reverse l))
      = Legacy.currentStreak s + Z.of_nat n ∧
    (n = 0%nat →
       Legacy.currentStreakStart (foldl (Legacy.body m today) s (reverse l))
         = Legacy.currentStreakStart s ∧
       Legacy.currentStreakEnd (foldl (Legacy.body m today) s (reverse l))
         = Legacy.currentStreakEnd s) ∧
    (n ≠ 0%nat →
       Legacy.currentStreakStart (foldl (Legacy.body m today) s (reverse l))
         = Some (a - Z.of_nat n + 1) ∧
       Legacy.currentStreakEnd (foldl (Legacy.body m today) s (reverse l))
         = Some (default a (Legacy.currentStreakEnd s))).
Proof.
  induction n as [|n IH]; intros a l s Ha Hs Hl Hstreak Hrun Hstop Hcomplete.
  - rewrite Z.sub_0_r in *.
    destruct (decide (l = [])) as [->|Hne].
    { simpl. repeat split; (lia || done). }
    assert (a ∈ l) as Hin.
    { assert (∃ x0, x0 ∈ l) as [x0 Hx0]
        by (destruct l; [done | eexists; apply elem_of_cons; by left]).
      apply Hl. split; [|lia].
      apply (Hcomplete x0 Hx0). by apply Hl in Hx0 as [_ ?]. }
    destruct (sorted_max_last l a Hs Hin) as [l' ->].
    { intros x Hx. by apply Hl in Hx as [_ ?]. }
    rewrite reverse_snoc. simpl.
    rewrite (legacy_body_stops m today s a Ha Hstreak Hstop).
    rewrite legacy_frozen by done. simpl.
    repeat split; (lia || done).
  - assert (positive_count (m !! a) = true) as Hpos.
    { specialize (Hrun 0%nat). rewrite Z.sub_0_r in Hrun. apply Hrun. lia. }
    assert (a ∈ l) as Hin.
    { apply Hl. split; [|lia].
      apply positive_count_true in Hpos as (c & -> & _). eauto. }
    destruct (sorted_max_last l a Hs Hin) as [l' ->].
    { intros x Hx. by apply Hl in Hx as [_ ?]. }
    rewrite reverse_snoc. simpl.
    rewrite (legacy_body_counts m today s a Ha Hstreak Hpos).
    assert (∀ x, x ∈ l' ↔ is_Some (m !! x) ∧ x ≤ a - 1) as Hl'.
    { intros x. split.
      - intros Hx.
        assert (x < a).
        { apply (StronglySorted_app_1_elem_of _ _ _ x a Hs Hx).
          apply elem_of_cons. by left. }
        split; [|lia]. apply Hl. apply elem_of_app. by left.
      - intros [Hx Hle].
        assert (x ∈ l' ++ [a]) as Hx' by (apply Hl; split; [done | lia]).
        apply elem_of_app in Hx' as [?|Hx']; [done|].
        apply elem_of_cons in Hx' as [->|Hx']; [lia|].
        by apply elem_of_nil in Hx'. }
    destruct (IH (a - 1) l'
                (Legacy.State (Legacy.currentStreak s + 1) (Some a)
                   (Some (default a (Legacy.currentStreakEnd s))) true))
      as (Hcs & Hzero & Hmore).
    + lia.
    + by apply StronglySorted_app_1_l in Hs.
    + done.
    + done.
    + intros k Hk.
      replace (a - 1 - Z.of_nat k) with (a - Z.of_nat (S k)) by lia.
      apply Hrun. lia.
    + by replace (a - 1 - Z.of_nat n) with (a - Z.of_nat (S n)) by lia.
    + intros x Hx Hle.
      replace (a - 1 - Z.of_nat n) with (a - Z.of_nat (S n)) by lia.
      apply (Hcomplete x); [apply elem_of_app; by left | lia].
    + simpl in *. split; [lia|]. split; [done|]. intros _.
      destruct n as [|n].
      * destruct (Hzero eq_refl) as [-> ->]. split; f_equal; lia.
      * destruct Hmore as [-> ->]; [done|]. split; f_equal; lia.
Qed.

Lemma legacy_run_past (m : gmap Z Z) today :
  Legacy.run m today (sortedDates m)
  = foldl (Legacy.body m today) Legacy.init
      (reverse (filter (λ x, x ≤ today) (sortedDates m))).
Proof.
  unfold Legacy.run. by rewrite legacy_skips_future, filter_reverse.
Qed.

(** X7.  On a calendar that is complete up to today, both versions give
    the same current streak, with the same boundary dates, except on the
    day of grace: they agree whenever today has a positive count or the
    day before has none. *)
Theorem versions_agree_on_complete_calendar (m : gmap Z Z) (now : Z) :
  complete_until (utcToday now) m →
  active m (utcToday now) ∨ ¬ active m (utcToday now - 1) →
  ∃ d, calculateStreaksData m now = Some d ∧
       currentStreak (Legacy.calculateStreaksData m now) = currentStreak d ∧
       currentStreakStart (Legacy.calculateStreaksData m now)
         = currentStreakStart d ∧
       currentStreakEnd (Legacy.calculateStreaksData m now)
         = currentStreakEnd d.
Proof.
  intros Hcomplete Hcase.
  destruct (calculateStreaksData_Some m now) as (w & Hw & ->).
  eexists. split; [done|]. simpl. rewrite legacy_run_past.
  set (today := utcToday now) in *.
  set (l := filter (λ x, x ≤ today) (sortedDates m)).
  assert (StronglySorted Z.lt l) as Hs
    by apply StronglySorted_filter_lt, sortedDates_ascending.
  assert (∀ x, x ∈ l ↔ is_Some (m !! x) ∧ x ≤ today) as Hl.
  { intros x. unfold l. rewrite list_elem_of_filter, elem_of_sortedDates.
    tauto. }
  rewrite startDate_cases in Hw. unfold utcYesterday in Hw. fold today in Hw.
  destruct (positive_count (m !! today)) eqn:Htoday.
  - unfold currentStreakWalk in Hw.
    destruct (walk_from_anchor m today)
      as (w' & n & Hw' & Hcs & Hrun & Hstop & _ & Hpos).
    rewrite Hw' in Hw. injection Hw as <-.
    assert (n ≠ 0%nat) as Hn.
    { intros ->. rewrite Z.sub_0_r in Hstop. congruence. }
    destruct (legacy_counts_down m today n today l Legacy.init)
      as (Hlcs & _ & Hlpos); try done; try lia.
    { intros x Hx Hle. apply Hl in Hx as [Hx _].
      apply (Hcomplete x); [done | lia]. }
    destruct (Hpos Hn) as [-> ->]. destruct (Hlpos Hn) as [-> ->].
    rewrite Hlcs, Hcs. simpl. repeat split; lia.
  - assert (¬ active m today) as Hidle
      by (rewrite active_positive_count; congruence).
    destruct Hcase as [?|Hyesterday]; [done|].
    rewrite active_positive_count in Hyesterday.
    apply not_true_is_false in Hyesterday. rewrite Hyesterday in Hw.
    injection Hw as <-.
    destruct (legacy_counts_down m today 0 today l Legacy.init)
      as (Hlcs & Hlzero & _); try done; try lia.
    { by rewrite Z.sub_0_r. }
    { intros x Hx Hle. rewrite Z.sub_0_r. apply Hl in Hx as [Hx ?].
      apply (Hcomplete x); [done | lia]. }
    destruct (Hlzero eq_refl) as [-> ->]. rewrite Hlcs. by simpl.
Qed.

Lemma graceSeries_complete : complete_until 19726 graceSeries.
Proof.
  intros d1 d2 Hd1 Hd2. unfold graceSeries in *.
  rewrite !lookup_insert_is_Some, lookup_empty in Hd1.
  assert (d2 = 19726) as ->.
  { destruct Hd1 as [?|[? [?|[? [? ?]]]]]; [lia | lia | done]. }
  vm_compute. eauto.
Qed.

Lemma versions_agree_on_complete_calendar_witness :
  ∃ d, calculateStreaksData graceSeries (dateMs 19726) = Some d ∧
       currentStreak (Legacy.calculateStreaksData graceSeries (dateMs 19726))
         = currentStreak d ∧
       currentStreakStart
         (Legacy.calculateStreaksData graceSeries (dateMs 19726))
         = currentStreakStart d ∧
       currentStreakEnd
         (Legacy.calculateStreaksData graceSeries (dateMs 19726))
         = currentStreakEnd d.
Proof.
  apply (versions_agree_on_complete_calendar graceSeries (dateMs 19726)).
  - apply graceSeries_complete.
  - left. exists 4. split; [vm_compute; reflexivity | lia].
Defined.

(** ** The strings of the returned record *)

Lemma scan_dates_inv_run (m : gmap Z Z) dates :
  scan_dates_inv (Scan.run m dates).
Proof.
  destruct (run_inv_run m dates) as (_ & Hl0 & _ & _ & Hbest).
  split; [done|]. split.
  - clear Hl0 Hbest. unfold Scan.run.
    assert (0 ≤ Scan.longestStreak Scan.init ∧
            (Scan.longestStreak Scan.init = 0 →
             Scan.longestStreakStart Scan.init = None ∧
             Scan.longestStreakEnd Scan.init = None)) as Hinit by done.
    revert Hinit. generalize Scan.init.
    induction dates as [|x dates IH]; intros s Hs; [by destruct Hs|].
    simpl. apply IH. destruct Hs as [Hs0 Hnull].
    rewrite scan_body_unfold. cbv zeta.
    destruct (positive_count (m !! x)); [|done].
    match goal with
    | |- context [Scan.longestStreak s <? ?t] =>
        destruct (Z.ltb_spec (Scan.longestStreak s) t)
    end; simpl; (split; [lia|]); [lia | done].
  - intros Hpos. destruct (Hbest Hpos) as (st & e & -> & -> & _). eauto.
Qed.

Lemma legacy_dates_inv_foldl (m : gmap Z Z) today l :
  ∀ s, legacy_dates_inv s →
       legacy_dates_inv (foldl (Legacy.body m today) s l).
Proof.
  induction l as [|x l IH]; intros s Hs; [done|].
  simpl. apply IH. destruct Hs as (H0 & Hzero & Hpos).
  unfold Legacy.body.
  repeat match goal with
         | |- context [if ?b then _ else _] => destruct b
         end; try done.
  unfold legacy_dates_inv. simpl.
  split; [lia|]. split; [lia|]. intros _.
  split; [eauto|]. destruct (Legacy.currentStreakEnd s); eauto.
Qed.

Lemma Some_None_iff {A} (o : option A) (len : Z) :
  0 ≤ len → (len = 0 → o = None) → (0 < len → is_Some o) →
  (o = None ↔ len = 0).
Proof.
  intros H0 Hzero Hpos. split; [|done].
  intros ->. destruct (decide (len = 0)); [done|].
  destruct Hpos as [? ?]; [lia | done].
Qed.

Lemma display_empty_when_zero (d : StreakData) :
  0 ≤ currentStreak d → 0 ≤ longestStreak d →
  (currentStreak d = 0 →
     currentStreakStart d = None ∧ currentStreakEnd d = None) →
  (0 < currentStreak d →
     is_Some (currentStreakStart d) ∧ is_Some (currentStreakEnd d)) →
  (longestStreak d = 0 →
     longestStreakStart d = None ∧ longestStreakEnd d = None) →
  (0 < longestStreak d →
     is_Some (longestStreakStart d) ∧ is_Some (longestStreakEnd d)) →
  empty_when_zero (display d).
Proof.
  intros Hc0 Hl0 Hcz Hcp Hlz Hlp. unfold empty_when_zero, display. simpl.
  rewrite !formatDateForDisplay_empty.
  split; [|split; [|split]]; apply Some_None_iff; try done.
  - intros H. by destruct (Hcz H).
  - intros H. by destruct (Hcp H).
  - intros H. by destruct (Hcz H).
  - intros H. by destruct (Hcp H).
  - intros H. by destruct (Hlz H).
  - intros H. by destruct (Hlp H).
  - intros H. by destruct (Hlz H).
  - intros H. by destruct (Hlp H).
Qed.

(** X8.  In the record that either version returns, the start and the end
    of a streak are the empty string exactly when the length of the streak
    is 0, and [firstContribution] is the empty string exactly when no date
    of the series has a positive count. *)
Theorem returned_strings_empty_when_zero (m : gmap Z Z) (now : Z) :
  ∃ r, calculateStreaks m now = Some r ∧
       empty_when_zero r ∧
       (r_firstContribution r = "" ↔ ∀ x, ¬ active m x) ∧
       empty_when_zero (Legacy.calculateStreaks m now) ∧
       (r_firstContribution (Legacy.calculateStreaks m now) = ""
        ↔ ∀ x, ¬ active m x).
Proof.
  assert (findFirstContribution m (sortedDates m) = None ↔ ∀ x, ¬ active m x)
    as Hfirst.
  { rewrite findFirst_None, Forall_forall. split.
    - intros Hall x Hx.
      assert (x ∈ sortedDates m) as Hin.
      { apply elem_of_sortedDates. destruct Hx as (c & -> & _). eauto. }
      apply active_positive_count in Hx. specialize (Hall x Hin). congruence.
    - intros Hnone x _. apply not_true_is_false.
      rewrite <- active_positive_count. apply Hnone. }
  destruct (scan_dates_inv_run m (sortedDates m)) as (Hl0 & Hlz & Hlp).
  unfold calculateStreaks.
  destruct (contiguous_run_current m now) as (d & Hd & Hrun).
  destruct (calculateStreaksData_Some m now) as (w & Hw & Heq).
  rewrite Hd. simpl. eexists. split; [done|].
  rewrite Heq in Hd. injection Hd as <-.
  split; [|split; [|split]].
  - apply display_empty_when_zero; simpl in *; try done.
    + destruct (startDate m (utcToday now) (utcYesterday now));
        simpl in Hrun; lia.
    + destruct (startDate m (utcToday now) (utcYesterday now));
        simpl in Hrun, Hw; [lia|]. by injection Hw as <-.
    + destruct (startDate m (utcToday now) (utcYesterday now));
        simpl in Hrun; [|lia].
      destruct Hrun as (_ & _ & _ & -> & ->). eauto.
  - simpl. by rewrite formatDateForDisplay_empty.
  - unfold Legacy.calculateStreaks.
    destruct (legacy_dates_inv_foldl m (utcToday now)
                (reverse (sortedDates m)) Legacy.init) as (Hc0 & Hcz & Hcp);
      [by repeat split|].
    apply display_empty_when_zero; simpl; done.
  - simpl. by rewrite formatDateForDisplay_empty.
Qed.

(** * Further properties of the aggregation *)

Lemma lastCount_Some d days c :
  lastCount d days = Some c →
  ∃ day, day ∈ days ∧ date day = d ∧ contributionCount day = c.
Proof.
  induction days as [|day days IH]; [done|]. simpl.
  destruct (lastCount d days) as [c'|].
  - intros [= <-]. destruct (IH eq_refl) as (day' & Hin & Hd & Hc).
    exists day'. split; [apply elem_of_cons; by right | done].
  - case_decide as Hd; [|done]. intros [= <-].
    exists day. split; [apply elem_of_cons; by left | done].
Qed.

Lemma lastCount_is_Some d days day :
  day ∈ days → date day = d → is_Some (lastCount d days).
Proof.
  intros Hin Hd.
  destruct (lastCount d days) as [c|] eqn:Hlast; [eauto|].
  rewrite lastCount_None in Hlast. by destruct (Hlast day Hin).
Qed.

Lemma recordDays_size (c : gmap Z Z) days :
  (size (recordDays c days) ≤ size c + length days)%nat.
Proof.
  revert c. induction days as [|day days IH]; intros c; [simpl; lia|].
  unfold recordDays in *. simpl.
  specialize (IH (<[date day := contributionCount day]> c)).
  rewrite map_size_insert in IH.
  destruct (c !! date day); simpl in IH; lia.
Qed.

(** X9.  The aggregation invents nothing: every entry of the series it
    builds is the date and the count of an observation of the answer,
    every observed date is in the series, the series has no more dates
    than there are observations, and when no observed count is negative no
    count of the series is. *)
Theorem aggregation_only_observed (user : gmap Z YearData) (years : list Z) :
  (∀ d c, combineYears user years !! d = Some c →
          ∃ day, day ∈ observations user years ∧
                 date day = d ∧ contributionCount day = c) ∧
  (∀ day, day ∈ observations user years →
          is_Some (combineYears user years !! date day)) ∧
  (size (combineYears user years) ≤ length (observations user years))%nat ∧
  ((∀ day, day ∈ observations user years → 0 ≤ contributionCount day) →
   series_wf (combineYears user years)).
Proof.
  assert (∀ d c, combineYears user years !! d = Some c →
                 ∃ day, day ∈ observations user years ∧
                        date day = d ∧ contributionCount day = c) as Hfrom.
  { intros d c. rewrite combineYears_lookup. apply lastCount_Some. }
  split; [done|]. split; [|split].
  - intros day Hin. rewrite combineYears_lookup.
    by apply (lastCount_is_Some _ _ day).
  - unfold combineYears. rewrite foldl_years_recordDays.
    pose proof (recordDays_size ∅ (observations user years)) as Hsize.
    by rewrite map_size_empty in Hsize.
  - intros Hpos d c Hc. simpl.
    destruct (Hfrom d c Hc) as (day & Hin & _ & <-). by apply Hpos.
Qed.

Lemma lastCount_perm d (days days' : list ContributionDay) :
  consistent days → days ≡ₚ days' → lastCount d days' = lastCount d days.
Proof.
  intros Hcons Hperm.
  destruct (lastCount d days) as [c|] eqn:Hlast.
  - apply lastCount_Some in Hlast as (day & Hin & Hd & Hc).
    destruct (lastCount_is_Some d days' day) as [c' Hlast'];
      [by rewrite <- Hperm | done |].
    rewrite Hlast'. f_equal.
    apply lastCount_Some in Hlast' as (day' & Hin' & Hd' & <-).
    rewrite <- Hc. apply Hcons; [by rewrite Hperm | done | congruence].
  - rewrite lastCount_None in Hlast |- *.
    intros day Hin. apply Hlast. by rewrite Hperm.
Qed.

(** X10.  When no date is observed with two different counts, the order
    in which the years are processed does not matter: any rearrangement of
    the list of years gives the same series. *)
Theorem aggregation_order_irrelevant (user : gmap Z YearData)
    (years years' : list Z) :
  consistent (observations user years) → years ≡ₚ years' →
  combineYears user years' = combineYears user years.
Proof.
  intros Hcons Hperm. apply map_eq. intros d.
  rewrite !combineYears_lookup.
  apply lastCount_perm; [done|].
  unfold observations. by rewrite Hperm.
Qed.

Lemma twoYears_consistent : consistent (observations twoYears [2024; 2023]).
Proof.
  intros day1 day2 H1 H2 Hd.
  vm_compute in H1, H2.
  apply elem_of_cons in H1 as [->|H1];
    [|apply elem_of_cons in H1 as [->|H1]; [|by apply elem_of_nil in H1]];
    (apply elem_of_cons in H2 as [->|H2];
     [|apply elem_of_cons in H2 as [->|H2]; [|by apply elem_of_nil in H2]]);
    simpl in *; (done || lia).
Qed.

Lemma aggregation_order_irrelevant_witness :
  combineYears twoYears [2023; 2024] = combineYears twoYears [2024; 2023].
Proof.
  apply (aggregation_order_irrelevant twoYears [2024; 2023] [2023; 2024]).
  - apply twoYears_consistent.
  - apply Permutation_swap.
Defined.

Lemma observations_filter (user : gmap Z YearData) years :
  observations user (filter (hasCalendar user) years)
  = observations user years.
Proof.
  induction years as [|year years IH]; [done|].
  rewrite filter_cons. destruct (decide (hasCalendar user year)) as [Hy|Hy].
  - by rewrite !observations_cons, IH.
  - rewrite observations_cons, IH. unfold yearObservations.
    unfold hasCalendar in Hy.
    destruct (user !! year ≫= calendarWeeks); [|done].
    exfalso. apply Hy. eauto.
Qed.

(** X11.  A year for which the answer holds no calendar (no entry under
    its alias, or an entry without weeks) is passed over: the series is
    the one of the years that have a calendar, and it is empty when none
    has. *)
Theorem years_without_calendar_are_skipped (user : gmap Z YearData)
    (years : list Z) :
  combineYears user years
    = combineYears user (filter (hasCalendar user) years) ∧
  (Forall (λ year, ¬ hasCalendar user year) years →
   combineYears user years = ∅).
Proof.
  split.
  - unfold combineYears.
    by rewrite !foldl_years_recordDays, observations_filter.
  - intros Hnone. unfold combineYears. rewrite foldl_years_recordDays.
    replace (observations user years) with (@nil ContributionDay); [done|].
    induction Hnone as [|year years Hy _ IH]; [done|].
    rewrite observations_cons, <- IH. unfold yearObservations.
    unfold hasCalendar in Hy.
    destruct (user !! year ≫= calendarWeeks); [|done].
    exfalso. apply Hy. eauto.
Qed.

(** * Further properties of [fetchStreak] *)

Lemma fetchStreak_cases env username token n :
  missing username = false →
  fetchStreak env username token n =
  match yearsAnswer env (default "" username) token with
  | inl err => (Threw (retagged env err), S n)
  | inr None => (Threw (retagged env (userNotFound env)), S n)
  | inr (Some years) =>
      match calendarsAnswer env (default "" username) years token with
      | inl err => (Threw (retagged env err), S (S n))
      | inr None => (Threw (retagged env (userNotFound env)), S (S n))
      | inr (Some answer) =>
          match calculateStreaks (combineYears answer years) (clockNow env)
          with
          | Some r => (Returned r, S (S n))
          | None => (Diverged, S (S n))
          end
      end
  end.
Proof.
  intros Hm. unfold fetchStreak. rewrite Hm.
  unfold tryCatch, bind, fetchContributionYears, fetchAllYearsCalendar, bind,
    request, returning, rethrow, throw, ret.
  destruct (yearsAnswer env (default "" username) token)
    as [err|[years|]]; try done.
  destruct (calendarsAnswer env (default "" username) years token)
    as [err|[answer|]]; try done.
  by destruct (calculateStreaks (combineYears answer years) (clockNow env)).
Qed.

Lemma collectYears_outcome env username token years :
  ∀ c n,
    match LegacyFetch.collectYears env username token years c n with
    | (Returned c', n') =>
        n' = (n + length years)%nat ∧
        c' = recordDays c (legacyObservations env username token years) ∧
        allAnswered env username token years
    | (Threw err, n') =>
        (n < n' ≤ n + length years)%nat ∧
        ¬ allAnswered env username token years
    | (Diverged, _) => False
    end.
Proof.
  induction years as [|year years IH]; intros c n.
  - simpl. unfold ret. repeat split; [lia | constructor].
  - simpl LegacyFetch.collectYears.
    unfold bind at 1, LegacyFetch.fetchYearCalendar, bind, request, throw, ret.
    destruct (yearAnswer env username year token) as [err|[weeks|]] eqn:Hans.
    + split; [simpl; lia|]. intros Hall.
      apply Forall_cons in Hall as [[weeks Hweeks] _]. congruence.
    + specialize (IH (recordDays c (week ← weeks; contributionDays week))
                    (S n)).
      destruct (LegacyFetch.collectYears env username token years _ (S n))
        as [[c'|err|] n'].
      * destruct IH as (-> & -> & Hall). split; [simpl; lia|]. split.
        -- unfold legacyObservations. simpl. rewrite Hans.
           by rewrite recordDays_app.
        -- constructor; [eauto | done].
      * destruct IH as [Hn Hnot]. split; [simpl; lia|].
        intros Hall. apply Forall_cons in Hall as [_ Hall]. by apply Hnot.
      * done.
    + split; [simpl; lia|]. intros Hall.
      apply Forall_cons in Hall as [[weeks Hweeks] _]. congruence.
Qed.

Lemma legacy_fetchStreak_cases env username token n :
  missing username = false →
  LegacyFetch.fetchStreak env username token n =
  match yearsAnswer env (default "" username) token with
  | inl err => (Threw (retagged env err), S n)
  | inr None => (Threw (retagged env (userNotFound env)), S n)
  | inr (Some years) =>
      match LegacyFetch.collectYears env (default "" username) token years
              ∅ (S n) with
      | (Returned c, n') =>
          (Returned (Legacy.calculateStreaks c (clockNow env)), n')
      | (Threw err, n') => (Threw (retagged env err), n')
      | (Diverged, n') => (Diverged, n')
      end
  end.
Proof.
  intros Hm. unfold LegacyFetch.fetchStreak. rewrite Hm.
  unfold tryCatch, bind at 1, fetchContributionYears, bind, request,
    rethrow, throw, ret.
  destruct (yearsAnswer env (default "" username) token)
    as [err|[years|]]; try done.
  unfold bind.
  by destruct (LegacyFetch.collectYears env (default "" username) token years
                 ∅ (S n)) as [[c|err|] n'].
Qed.

Lemma orString_nonempty value fallback :
  fallback ≠ "" → orString value fallback ≠ "".
Proof.
  intros Hf. unfold orString. destruct value as [s|]; [|done].
  destruct (String.eqb_spec s ""); done.
Qed.

Lemma retagged_shape env username n n' err :
  missing username = false → (n < n')%nat →
  failure_shape env username n (Threw (retagged env err), n').
Proof.
  intros Hm Hn. unfold failure_shape, retagged. rewrite Hm.
  eexists. split; [done|]. simpl.
  split; [by apply orString_nonempty|]. done.
Qed.

Lemma fetchStreak_shape env username token n :
  failure_shape env username n (fetchStreak env username token n).
Proof.
  destruct (missing username) eqn:Hm.
  - destruct (fetchStreak_missing env username token n Hm) as [-> _].
    unfold failure_shape. rewrite Hm.
    eexists. split; [done|]. by repeat split.
  - rewrite (fetchStreak_cases _ _ _ _ Hm).
    destruct (yearsAnswer env (default "" username) token)
      as [err|[years|]]; try (apply retagged_shape; [done | lia]).
    destruct (calendarsAnswer env (default "" username) years token)
      as [err|[answer|]]; try (apply retagged_shape; [done | lia]).
    unfold calculateStreaks.
    by destruct (calculateStreaksData_Some (combineYears answer years)
                   (clockNow env)) as (w & _ & ->).
Qed.

Lemma legacy_fetchStreak_shape env username token n :
  failure_shape env username n (LegacyFetch.fetchStreak env username token n).
Proof.
  destruct (missing username) eqn:Hm.
  - destruct (fetchStreak_missing env username token n Hm) as [_ ->].
    unfold failure_shape. rewrite Hm.
    eexists. split; [done|]. by repeat split.
  - rewrite (legacy_fetchStreak_cases _ _ _ _ Hm).
    destruct (yearsAnswer env (default "" username) token)
      as [err|[years|]]; try (apply retagged_shape; [done | lia]).
    pose proof (collectYears_outcome env (default "" username) token years
                  ∅ (S n)) as Hout.
    destruct (LegacyFetch.collectYears env (default "" username) token
                years ∅ (S n)) as [[c|err|] n']; [done | | done].
    apply retagged_shape; [done | lia].
Qed.

(** X12.  However the upstream behaves, a call of [fetchStreak], in either
    version, returns or throws one [CustomError] whose message is not
    empty and whose secondary message is the one of its tag; the tag is
    [USER_NOT_FOUND], with no request sent, exactly when the identifier is
    missing or empty, and [GRAPHQL_ERROR], after at least one request,
    otherwise.  The call never hangs in the calculator. *)
Theorem fetchStreak_failures (env : Env) (username : option string)
    (token : string) (n : nat) :
  failure_shape env username n (fetchStreak env username token n) ∧
  failure_shape env username n (LegacyFetch.fetchStreak env username token n).
Proof.
  split; [apply fetchStreak_shape | apply legacy_fetchStreak_shape].
Qed.

(** X13.  The current [fetchStreak] sends at most two requests, whatever
    the number of years, and exactly two when it returns; the earlier one,
    when it returns, has sent one request and one more for each year the
    upstream lists. *)
Theorem fetchStreak_request_count (env : Env) (username : option string)
    (token : string) (n : nat) :
  (n ≤ (fetchStreak env username token n).2 ≤ n + 2)%nat ∧
  (∀ r, (fetchStreak env username token n).1 = Returned r →
        (fetchStreak env username token n).2 = (n + 2)%nat) ∧
  (∀ r, (LegacyFetch.fetchStreak env username token n).1 = Returned r →
        ∃ years,
          yearsAnswer env (default "" username) token = inr (Some years) ∧
          (LegacyFetch.fetchStreak env username token n).2
            = (n + 1 + length years)%nat).
Proof.
  destruct (missing username) eqn:Hm.
  - destruct (fetchStreak_missing env username token n Hm) as [-> ->].
    simpl. repeat split; (lia || done).
  - rewrite (fetchStreak_cases _ _ _ _ Hm),
      (legacy_fetchStreak_cases _ _ _ _ Hm).
    destruct (yearsAnswer env (default "" username) token)
      as [err|[years|]]; simpl; try (repeat split; (lia || done)).
    split; [|split].
    + destruct (calendarsAnswer env (default "" username) years token)
        as [err|[answer|]]; simpl; try lia.
      destruct (calculateStreaks (combineYears answer years) (clockNow env));
        simpl; lia.
    + intros r.
      destruct (calendarsAnswer env (default "" username) years token)
        as [err|[answer|]]; simpl; try done.
      destruct (calculateStreaks (combineYears answer years) (clockNow env));
        simpl; [lia | done].
    + intros r.
      pose proof (collectYears_outcome env (default "" username) token years
                    ∅ (S n)) as Hout.
      destruct (LegacyFetch.collectYears env (default "" username) token
                  years ∅ (S n)) as [[c|err|] n']; simpl; try done.
      intros _. exists years. split; [done|]. destruct Hout as [-> _]. lia.
Qed.

(** X14.  The current [fetchStreak] returns exactly when the identifier
    is present and both requests are answered with a user; the record is
    then what [calculateStreaks] gives for the calendars of the answer
    merged over the listed years. *)
Theorem fetchStreak_returns (env : Env) (username : option string)
    (token : string) (n n' : nat) (r : StreakResult) :
  fetchStreak env username token n = (Returned r, n') ↔
  missing username = false ∧
  ∃ years answer,
    yearsAnswer env (default "" username) token = inr (Some years) ∧
    calendarsAnswer env (default "" username) years token
      = inr (Some answer) ∧
    calculateStreaks (combineYears answer years) (clockNow env) = Some r ∧
    n' = S (S n).
Proof.
  destruct (missing username) eqn:Hm.
  - destruct (fetchStreak_missing env username token n Hm) as [-> _].
    split; [done | by intros [? _]].
  - rewrite (fetchStreak_cases _ _ _ _ Hm).
    destruct (yearsAnswer env (default "" username) token)
      as [err|[years|]].
    + split; [done | by intros (_ & ? & ? & ? & _)].
    + destruct (calendarsAnswer env (default "" username) years token)
        as [err|[answer|]] eqn:Hcal.
      * split; [done|]. intros (_ & ? & ? & [= <-] & ? & _). congruence.
      * destruct (calculateStreaks (combineYears answer years) (clockNow env))
          as [r'|] eqn:Hcalc.
        -- split.
           ++ intros [= <- <-]. split; [done|]. by eexists _, _.
           ++ intros (_ & ? & ? & [= <-] & Hcal' & Hr & ->).
              rewrite Hcal in Hcal'. injection Hcal' as <-. congruence.
        -- split; [done|].
           intros (_ & ? & ? & [= <-] & Hcal' & Hr & _).
           rewrite Hcal in Hcal'. injection Hcal' as <-. congruence.
      * split; [done|]. intros (_ & ? & ? & [= <-] & ? & _). congruence.
    + split; [done | by intros (_ & ? & ? & ? & _)].
Qed.

(** X15.  The earlier [fetchStreak] returns exactly when the identifier
    is present, the list of years is answered and so is the request of
    every year of the list; the record is then what the earlier
    [calculateStreaks] gives for the days of those years, recorded in the
    order of the list. *)
Theorem legacy_fetchStreak_returns (env : Env) (username : option string)
    (token : string) (n n' : nat) (r : StreakResult) :
  LegacyFetch.fetchStreak env username token n = (Returned r, n') ↔
  missing username = false ∧
  ∃ years,
    yearsAnswer env (default "" username) token = inr (Some years) ∧
    allAnswered env (default "" username) token years ∧
    r = Legacy.calculateStreaks
          (recordDays ∅
             (legacyObservations env (default "" username) token years))
          (clockNow env) ∧
    n' = (S n + length years)%nat.
Proof.
  destruct (missing username) eqn:Hm.
  - destruct (fetchStreak_missing env username token n Hm) as [_ ->].
    split; [done | by intros [? _]].
  - rewrite (legacy_fetchStreak_cases _ _ _ _ Hm).
    destruct (yearsAnswer env (default "" username) token)
      as [err|[years|]].
    + split; [done | by intros (_ & ? & ? & _)].
    + pose proof (collectYears_outcome env (default "" username) token years
                    ∅ (S n)) as Hout.
      destruct (LegacyFetch.collectYears env (default "" username) token
                  years ∅ (S n)) as [[c|err|] n''].
      * destruct Hout as (-> & -> & Hall). split.
        -- intros [= <- <-]. split; [done|]. by exists years.
        -- intros (_ & ? & [= <-] & _ & -> & ->). done.
      * destruct Hout as [_ Hnot]. split; [done|].
        intros (_ & ? & [= <-] & Hall & _). by destruct Hnot.
      * done.
    + split; [done | by intros (_ & ? & ? & _)].
Qed.

Lemma orString_Some msg fallback :
  msg ≠ "" → orString (Some msg) fallback = msg.
Proof.
  intros Hmsg. unfold orString. by destruct (String.eqb_spec msg "").
Qed.

(** X16.  When a request of the current [fetchStreak] fails, the failure
    the caller gets carries the message of the error the request threw,
    under the tag [GRAPHQL_ERROR]; an error without a message, or with an
    empty one, gives "Could not fetch streak data.".  The earlier version
    does the same at the request for the years. *)
Theorem failed_request_keeps_its_message (env : Env)
    (username : option string) (token : string) (n : nat) (err : Thrown) :
  missing username = false →
  yearsAnswer env (default "" username) token = inl err ∨
  (∃ years,
     yearsAnswer env (default "" username) token = inr (Some years) ∧
     calendarsAnswer env (default "" username) years token = inl err) →
  ∃ e n',
    fetchStreak env username token n = (Threw (ThrownCustom e), n') ∧
    type e = GRAPHQL_ERROR ∧
    (∀ msg, thrownMessage err = Some msg → msg ≠ "" → message e = msg) ∧
    (thrownMessage err = None ∨ thrownMessage err = Some "" →
     message e = "Could not fetch streak data.") ∧
    (yearsAnswer env (default "" username) token = inl err →
     LegacyFetch.fetchStreak env username token n
       = (Threw (ThrownCustom e), n')).
Proof.
  intros Hm Hfail.
  rewrite (fetchStreak_cases _ _ _ _ Hm),
    (legacy_fetchStreak_cases _ _ _ _ Hm).
  assert (∀ msg, thrownMessage err = Some msg → msg ≠ "" →
                 orString (thrownMessage err) "Could not fetch streak data."
                 = msg) as Hkept.
  { intros msg -> Hmsg. by apply orString_Some. }
  assert (thrownMessage err = None ∨ thrownMessage err = Some "" →
          orString (thrownMessage err) "Could not fetch streak data."
          = "Could not fetch streak data.") as Hdefault.
  { by intros [-> | ->]. }
  destruct Hfail as [Hyears|(years & Hyears & Hcal)].
  - rewrite Hyears. eexists _, _. split; [done|]. by repeat split.
  - rewrite Hyears, Hcal. eexists _, _. split; [done|].
    by repeat split.
Qed.

Lemma failed_request_keeps_its_message_witness :
  ∃ e n',
    fetchStreak networkDownEnv (Some "octocat") "token" 0%nat
      = (Threw (ThrownCustom e), n') ∧
    type e = GRAPHQL_ERROR ∧
    (∀ msg, thrownMessage (ThrownOther (Some "Network Error")) = Some msg →
            msg ≠ "" → message e = msg) ∧
    (thrownMessage (ThrownOther (Some "Network Error")) = None ∨
     thrownMessage (ThrownOther (Some "Network Error")) = Some "" →
     message e = "Could not fetch streak data.") ∧
    (yearsAnswer networkDownEnv (default "" (Some "octocat")) "token"
       = inl (ThrownOther (Some "Network Error")) →
     LegacyFetch.fetchStreak networkDownEnv (Some "octocat") "token" 0%nat
       = (Threw (ThrownCustom e), n')).
Proof.
  apply (failed_request_keeps_its_message networkDownEnv (Some "octocat")
           "token" 0%nat (ThrownOther (Some "Network Error"))).
  - reflexivity.
  - left. reflexivity.
Defined.

(** * Properties of the request handler *)

Lemma fetchStreak_request_bounds env username token n :
  (n ≤ (fetchStreak env username token n).2)%nat.
Proof.
  destruct (missing username) eqn:Hm.
  - by destruct (fetchStreak_missing env username token n Hm) as [-> _].
  - rewrite (fetchStreak_cases _ _ _ _ Hm).
    destruct (yearsAnswer env (default "" username) token)
      as [err|[years|]]; simpl; try lia.
    destruct (calendarsAnswer env (default "" username) years token)
      as [err|[answer|]]; simpl; try lia.
    destruct (calculateStreaks (combineYears answer years) (clockNow env));
      simpl; lia.
Qed.

Lemma legacy_fetchStreak_request_bounds env username token n :
  (n ≤ (LegacyFetch.fetchStreak env username token n).2)%nat.
Proof.
  destruct (missing username) eqn:Hm.
  - by destruct (fetchStreak_missing env username token n Hm) as [_ ->].
  - rewrite (legacy_fetchStreak_cases _ _ _ _ Hm).
    destruct (yearsAnswer env (default "" username) token)
      as [err|[years|]]; simpl; try lia.
    pose proof (collectYears_outcome env (default "" username) token years
                  ∅ (S n)) as Hout.
    destruct (LegacyFetch.collectYears env (default "" username) token
                years ∅ (S n)) as [[c|err|] n']; simpl; [lia | lia | done].
Qed.


Lemma handler_headers_content_type (v : HeaderValue) :
  (<["Cache-Control" := v]>
     (<["Content-Type" := Mime "image/svg+xml"]> (∅ : gmap string HeaderValue)))
    !! "Content-Type" = Some (Mime "image/svg+xml").
Proof. by rewrite lookup_insert_ne, lookup_insert_eq. Qed.

Lemma handler_headers_cache (v : HeaderValue) (hs : gmap string HeaderValue) :
  (<["Cache-Control" := v]> hs) !! "Cache-Control" = Some v.
Proof. apply lookup_insert_eq. Qed.

Lemma handler_headers_no_cache :
  (<["Content-Type" := Mime "image/svg+xml"]> (∅ : gmap string HeaderValue))
    !! "Cache-Control" = None.
Proof. by rewrite lookup_insert_ne. Qed.

Lemma handled_fetch
    (fetch : Env → option string → string → Fetch StreakResult)
    u p env q n :
  (∀ token,
     match fetch env (q_username q) token n with
     | (Diverged, _) => False
     | (_, n') => (n ≤ n')%nat
     end) →
  handled fetch u p env q n.
Proof.
  intros Hfetch. unfold handled, streakHandler.
  destruct (missing (q_username q)) eqn:Hu.
  { simpl. rewrite lookup_insert_eq, handler_headers_no_cache.
    repeat split; eauto. }
  destruct (missing (orValue (PAT_1 p) (GITHUB_TOKEN p))) eqn:Ht.
  { simpl. rewrite lookup_insert_eq, handler_headers_no_cache.
    repeat split; eauto. }
  specialize (Hfetch (default "" (orValue (PAT_1 p) (GITHUB_TOKEN p)))).
  destruct (fetch env (q_username q)
              (default "" (orValue (PAT_1 p) (GITHUB_TOKEN p))) n)
    as [[streak|err|] n']; [| |done].
  - destruct (renderStreakCard u (default "" (q_username q)) streak
                (cardOptions u q)) as [err|card] eqn:Hcard; simpl.
    + rewrite insert_insert_eq, handler_headers_content_type,
        handler_headers_cache.
      repeat split; try done.
      exists err. split; [by apply orString_nonempty | done].
    + rewrite handler_headers_content_type, handler_headers_cache.
      repeat split; try done. by exists streak.
  - simpl. rewrite handler_headers_content_type, handler_headers_cache.
    repeat split; try done.
    exists err. split; [by apply orString_nonempty | done].
Qed.

(** X17.  Around either version of [fetchStreak] the handler always sends
    one response, with the SVG content type.  Its [Cache-Control] header
    tells what the response is: none on the refusal of a request without
    user or token, sent before any request upstream; the success value,
    with the [cacheSeconds] of the handler, on the card rendered for the
    record that was fetched; the failure value on the error card of a
    failure, whose message is never empty. *)
Theorem handler_always_responds (u : Utils) (p : ProcessEnv) (env : Env)
    (q : Query) (n : nat) :
  handled fetchStreak u p env q n ∧
  handled LegacyFetch.fetchStreak u p env q n.
Proof.
  split; apply handled_fetch; intros token.
  - pose proof (fetchStreak_shape env (q_username q) token n) as Hshape.
    pose proof (fetchStreak_request_bounds env (q_username q) token n).
    destruct (fetchStreak env (q_username q) token n) as [[r|err|] n'];
      simpl in *; (done || lia).
  - pose proof (legacy_fetchStreak_shape env (q_username q) token n)
      as Hshape.
    pose proof (legacy_fetchStreak_request_bounds env (q_username q) token n).
    destruct (LegacyFetch.fetchStreak env (q_username q) token n)
      as [[r|err|] n']; simpl in *; (done || lia).
Qed.

(** * More on the calculator: more activity *)

(** A stretch of active days that ends at the anchor is counted whole. *)
Lemma walk_counts_run (m : gmap Z Z) anchor first w :
  Walk.loop (walkBudget m) m (Walk.init anchor) = Some w →
  active_run m first anchor → first ≤ anchor + 1 →
  anchor - first + 1 ≤ Walk.currentStreak w.
Proof.
  intros Hw Hrun Hle.
  destruct (loop_spec _ _ _ _ Hw) as (n & _ & Hstop & _ & Hcs & _).
  simpl in *. rewrite Hcs.
  destruct (decide (anchor - first + 1 ≤ Z.of_nat n)) as [|Hshort]; [lia|].
  exfalso.
  assert (active m (anchor - Z.of_nat n)) as Hact by (apply Hrun; lia).
  apply active_positive_count in Hact. congruence.
Qed.

(** X18.  More activity never shortens a streak of the current version:
    when every date with a positive count in one series has a positive
    count in another, neither the longest streak nor, at the same instant,
    the current streak of the other is shorter. *)
Theorem more_activity_longer_streaks (m m' : gmap Z Z) (now : Z) :
  at_least_as_active m m' →
  ∃ d d',
    calculateStreaksData m now = Some d ∧
    calculateStreaksData m' now = Some d' ∧
    longestStreak d ≤ longestStreak d' ∧
    currentStreak d ≤ currentStreak d'.
Proof.
  intros Hmore.
  destruct (contiguous_run_current m now) as (d & Hd & Hrun).
  destruct (calculateStreaksData_Some m now) as (w & _ & Heq).
  destruct (calculateStreaksData_Some m' now) as (w' & Hw' & Heq').
  exists d. eexists. split; [done|]. split; [done|].
  rewrite Heq in Hd. injection Hd as <-. simpl in *. split.
  - destruct (run_inv_run m (sortedDates m)) as (_ & Hl0 & _ & _ & Hbest).
    destruct (decide (Scan.longestStreak (Scan.run m (sortedDates m)) = 0))
      as [->|Hne].
    { by destruct (run_inv_run m' (sortedDates m')) as (_ & ? & _). }
    assert (0 < Scan.longestStreak (Scan.run m (sortedDates m))) as Hpos
      by lia.
    destruct (Hbest Hpos) as (st & e & _ & _ & Hlen & Hactive).
    rewrite <- Hlen. apply active_run_covers; [|lia].
    intros x Hx. by apply Hmore, Hactive.
  - destruct (startDate m (utcToday now) (utcYesterday now)) as [a|] eqn:Ha;
      simpl in Hrun.
    + destruct Hrun as (Hpos & Hall & _).
      assert (active_run m' (a - Walk.currentStreak w + 1) a) as Hrun'
        by (intros x Hx; apply Hmore, Hall; lia).
      assert (a = utcToday now ∨
              (a = utcToday now - 1 ∧ ¬ active m (utcToday now))) as Hanchor.
      { rewrite startDate_cases in Ha. unfold utcYesterday in Ha.
        destruct (positive_count (m !! utcToday now)) eqn:Ht;
          [left; congruence|].
        destruct (positive_count (m !! (utcToday now - 1))); [|done].
        right. split; [congruence|].
        rewrite active_positive_count. congruence. }
      rewrite startDate_cases in Hw'. unfold utcYesterday in Hw'.
      destruct (positive_count (m' !! utcToday now)) eqn:Ht'.
      * unfold currentStreakWalk in Hw'.
        assert (active_run m' (a - Walk.currentStreak w + 1) (utcToday now))
          as Hlong.
        { intros x Hx. destruct (decide (x ≤ a)); [apply Hrun'; lia|].
          replace x with (utcToday now) by lia.
          by apply active_positive_count. }
        pose proof (walk_counts_run m' _ _ _ Hw' Hlong). lia.
      * destruct Hanchor as [->|[-> _]].
        { assert (active m' (utcToday now)) as Hact by (apply Hrun'; lia).
          apply active_positive_count in Hact. congruence. }
        assert (positive_count (m' !! (utcToday now - 1)) = true) as Hy'.
        { apply active_positive_count, Hrun'. lia. }
        rewrite Hy' in Hw'. unfold currentStreakWalk in Hw'.
        pose proof (walk_counts_run m' _ _ _ Hw' Hrun'). lia.
    + rewrite Hrun.
      destruct (startDate m' (utcToday now) (utcYesterday now)) as [a'|];
        unfold currentStreakWalk in Hw'.
      * destruct (loop_spec _ _ _ _ Hw') as (n & _ & _ & _ & Hcs & _).
        simpl in Hcs. lia.
      * by injection Hw' as <-.
Qed.

Lemma filledSeries_more : at_least_as_active scenario filledSeries.
Proof.
  intros d (c & Hc & Hpos). unfold filledSeries.
  destruct (decide (d = 19726)) as [->|Hd].
  - exists 5. by rewrite lookup_insert_eq.
  - exists c. by rewrite lookup_insert_ne.
Qed.

Lemma more_activity_longer_streaks_witness :
  ∃ d d',
    calculateStreaksData scenario (dateMs 19727) = Some d ∧
    calculateStreaksData filledSeries (dateMs 19727) = Some d' ∧
    longestStreak d ≤ longestStreak d' ∧
    currentStreak d ≤ currentStreak d'.
Proof.
  apply (more_activity_longer_streaks scenario filledSeries (dateMs 19727)).
  apply filledSeries_more.
Defined.

(** * More on the request handler *)

(** X19.  A request without a user, or on a host without a token, is
    refused before [fetchStreak] is called, whatever [fetchStreak] is: no
    request goes upstream, and the response is the error card "Something
    went wrong" with the detail of what is missing, under the SVG content
    type and without [Cache-Control]. *)
Theorem handler_refuses_without_user_or_token
    (fetch : Env → option string → string → Fetch StreakResult)
    (u : Utils) (p : ProcessEnv) (env : Env) (q : Query) (n : nat) :
  missing (q_username q) = true ∨
  missing (orValue (PAT_1 p) (GITHUB_TOKEN p)) = true →
  streakHandler fetch u p env q n =
  (Some {| headers := {[ "Content-Type" := Mime "image/svg+xml" ]};
           body := renderError u "Something went wrong"
                     (Some (if missing (q_username q)
                            then "Missing `username` parameter"
                            else "GitHub token is not configured"))
                     (errorOptions q) |}, n).
Proof.
  intros Hmissing. unfold streakHandler.
  destruct (missing (q_username q)); [done|].
  destruct Hmissing as [? | ->]; done.
Qed.

Lemma handler_refuses_without_user_or_token_witness :
  streakHandler fetchStreak plainUtils bareHost answeringEnv octocatQuery 0 =
  (Some {| headers := {[ "Content-Type" := Mime "image/svg+xml" ]};
           body := renderError plainUtils "Something went wrong"
                     (Some (if missing (q_username octocatQuery)
                            then "Missing `username` parameter"
                            else "GitHub token is not configured"))
                     (errorOptions octocatQuery) |}, 0%nat).
Proof.
  apply (handler_refuses_without_user_or_token fetchStreak plainUtils
           bareHost answeringEnv octocatQuery 0).
  right. reflexivity.
Defined.

(** X20.  For a user the upstream does not know, the handler around
    either version of [fetchStreak] sends, after one request, the error
    card "Could not fetch user." with the secondary message of the tag
    [GRAPHQL_ERROR], not the one of [USER_NOT_FOUND], and the failure value
    of [Cache-Control]. *)
Theorem handler_unknown_user (u : Utils) (p : ProcessEnv) (env : Env)
    (q : Query) (n : nat) :
  missing (q_username q) = false →
  missing (orValue (PAT_1 p) (GITHUB_TOKEN p)) = false →
  yearsAnswer env (default "" (q_username q))
    (default "" (orValue (PAT_1 p) (GITHUB_TOKEN p))) = inr None →
  streakHandler fetchStreak u p env q n =
  (Some {| headers :=
             <["Cache-Control" :=
                 CacheFailure (ERROR_CACHE_SECONDS u) (ONE_DAY u)]>
               {[ "Content-Type" := Mime "image/svg+xml" ]};
           body := renderError u "Could not fetch user."
                     (secondaryMessages env GRAPHQL_ERROR)
                     (errorOptions q) |}, S n) ∧
  streakHandler LegacyFetch.fetchStreak u p env q n
    = streakHandler fetchStreak u p env q n.
Proof.
  intros Hu Ht Hans. unfold streakHandler. rewrite Hu, Ht.
  rewrite (fetchStreak_cases _ _ _ _ Hu),
    (legacy_fetchStreak_cases _ _ _ _ Hu), Hans.
  by split.
Qed.

Lemma handler_unknown_user_witness :
  streakHandler fetchStreak plainUtils tokenHost noUserEnv octocatQuery 0 =
  (Some {| headers :=
             <["Cache-Control" :=
                 CacheFailure (ERROR_CACHE_SECONDS plainUtils)
                   (ONE_DAY plainUtils)]>
               {[ "Content-Type" := Mime "image/svg+xml" ]};
           body := renderError plainUtils "Could not fetch user."
                     (secondaryMessages noUserEnv GRAPHQL_ERROR)
                     (errorOptions octocatQuery) |}, 1%nat) ∧
  streakHandler LegacyFetch.fetchStreak plainUtils tokenHost noUserEnv
    octocatQuery 0
    = streakHandler fetchStreak plainUtils tokenHost noUserEnv octocatQuery 0.
Proof.
  apply (handler_unknown_user plainUtils tokenHost noUserEnv octocatQuery 0);
    reflexivity.
Defined.

Example handler_end_to_end :
  streakHandler fetchStreak plainUtils tokenHost answeringEnv octocatQuery 0
  = (Some {| headers :=
               <["Cache-Control" := CacheSuccess (Some 14400)]>
                 {[ "Content-Type" := Mime "image/svg+xml" ]};
             body := "octocat / Jan 1" |}, 2%nat) ∧
  streakHandler LegacyFetch.fetchStreak plainUtils tokenHost answeringEnv
    octocatQuery 0
  = (Some {| headers :=
               <["Cache-Control" := CacheSuccess (Some 14400)]>
                 {[ "Content-Type" := Mime "image/svg+xml" ]};
             body := "octocat / Jan 1" |}, 3%nat).
Proof. split; vm_compute; reflexivity. Qed.

(** * More on the calculator: the turns of the walk, the boundary dates *)

Lemma loop_turns (m : gmap Z Z) fuel :
  ∀ s w, Walk.loop fuel m s = Some w →
         Walk.currentStreak s ≤ Walk.currentStreak w ∧
         Walk.currentStreak w - Walk.currentStreak s < Z.of_nat fuel ∧
         Walk.loop (S (Z.to_nat (Walk.currentStreak w - Walk.currentStreak s)))
           m s = Some w.
Proof.
  induction fuel as [|fuel IH]; intros s w Hw; [done|].
  simpl in Hw. destruct (Walk.body m s) as [s'|] eqn:Hb.
  - destruct (IH s' w Hw) as (Hle & Hlt & Hexact).
    pose proof (body_Some _ _ _ Hb) as [_ ->]. simpl in *.
    split; [lia|]. split; [lia|].
    replace (Z.to_nat (Walk.currentStreak w - Walk.currentStreak s))
      with (S (Z.to_nat (Walk.currentStreak w - (Walk.currentStreak s + 1))))
      by lia.
    change (Walk.loop (S ?f) m s)
      with (match Walk.body m s with
            | Some s' => Walk.loop f m s'
            | None => Some s
            end).
    by rewrite Hb.
  - injection Hw as <-. split; [lia|]. split; [lia|].
    rewrite Z.sub_diag. simpl. by rewrite Hb.
Qed.

(** X21.  The backward walk takes one turn for each day it counts and one
    more to stop: with an anchor, a budget of turns is enough exactly when
    it exceeds the current streak, and without an anchor no turn is
    taken. *)
Theorem walk_takes_streak_plus_one_turns (m : gmap Z Z) (now : Z) :
  ∃ d, calculateStreaksData m now = Some d ∧
       ∀ fuel : nat,
         streakData fuel m now =
         if decide (is_Some (startDate m (utcToday now) (utcYesterday now)) ∧
                    Z.of_nat fuel ≤ currentStreak d)
         then None else Some d.
Proof.
  destruct (calculateStreaksData_Some m now) as (w & Hw & Heq).
  eexists. split; [exact Heq|]. intros fuel.
  change (currentStreak (MkStreakData ?c _ _ _ _ _ _ _)) with c.
  unfold streakData.
  destruct (startDate m (utcToday now) (utcYesterday now)) as [a|];
    unfold currentStreakWalk in *.
  - destruct (loop_turns _ _ _ _ Hw) as (H0 & _ & Hexact).
    change (Walk.currentStreak (Walk.init a)) with 0 in *.
    rewrite Z.sub_0_r in Hexact.
    case_decide as Hfuel.
    + destruct Hfuel as [_ Hfuel].
      destruct (Walk.loop fuel m (Walk.init a)) as [w'|] eqn:Hw'; [|done].
      exfalso.
      destruct (loop_turns _ _ _ _ Hw') as (_ & Hlt & _).
      change (Walk.currentStreak (Walk.init a)) with 0 in *.
      pose proof (loop_fuel_mono m fuel (fuel + walkBudget m) _ _ Hw') as H1.
      pose proof (loop_fuel_mono m (walkBudget m) (fuel + walkBudget m) _ _ Hw)
        as H2.
      rewrite H1 in H2 by lia.
      assert (w' = w) as -> by (apply H2 in H0 || (injection H2; [done|lia])).
      lia.
    + rewrite (loop_fuel_mono m _ fuel _ _ Hexact); [done|].
      assert (¬ Z.of_nat fuel ≤ Walk.currentStreak w) by eauto. lia.
  - injection Hw as <-. rewrite decide_False; [done|].
    intros [[? ?] _]. done.
Qed.

Lemma legacy_active_inv (m : gmap Z Z) today l :
  ∀ s,
    (∀ x, Legacy.currentStreakStart s = Some x → active m x) →
    (∀ x, Legacy.currentStreakEnd s = Some x → active m x) →
    (∀ x, Legacy.currentStreakStart (foldl (Legacy.body m today) s l) = Some x
          → active m x) ∧
    (∀ x, Legacy.currentStreakEnd (foldl (Legacy.body m today) s l) = Some x
          → active m x).
Proof.
  induction l as [|date l IH]; intros s Hstart Hend; [done|].
  simpl. apply IH; unfold Legacy.body;
    destruct (today <? date); try done;
    destruct (Legacy.streaking s); try done;
    destruct (positive_count (m !! date)) eqn:Hpos;
    try (by destruct ((date =? today) || (date <? today))); simpl.
  - intros x [= <-]. by apply active_positive_count.
  - intros x. destruct (Legacy.currentStreakEnd s) as [e|] eqn:He.
    + intros [= <-]. by apply Hend.
    + intros [= <-]. by apply active_positive_count.
Qed.

Lemma first_before_active (m : gmap Z Z) x :
  active m x →
  ∃ f, findFirstContribution m (sortedDates m) = Some f ∧ f ≤ x.
Proof.
  intros Hx.
  assert (x ∈ sortedDates m) as Hin.
  { apply elem_of_sortedDates. destruct Hx as (c & -> & _). eauto. }
  destruct (findFirstContribution m (sortedDates m)) as [f|] eqn:Hfirst.
  - exists f. split; [done|].
    apply findFirst_Some in Hfirst as (l1 & l2 & Hsplit & _ & Hall).
    pose proof (sortedDates_ascending m) as Hs. rewrite Hsplit in Hs, Hin.
    apply elem_of_app in Hin as [Hin|Hin].
    + rewrite Forall_forall in Hall. specialize (Hall x Hin).
      apply active_positive_count in Hx. congruence.
    + apply elem_of_cons in Hin as [->|Hin]; [lia|].
      apply StronglySorted_app_1_r, StronglySorted_cons in Hs as [Hgt _].
      rewrite Forall_forall in Hgt. specialize (Hgt x Hin). lia.
  - apply findFirst_None in Hfirst. rewrite Forall_forall in Hfirst.
    apply active_positive_count in Hx. specialize (Hfirst x Hin). congruence.
Qed.

Lemma boundary_ok_active (m : gmap Z Z) boundary :
  (∀ x, boundary = Some x → active m x) →
  boundary_ok m (findFirstContribution m (sortedDates m)) boundary.
Proof.
  intros Hactive x Hx. split; [by apply Hactive|].
  by apply first_before_active, Hactive.
Qed.

Lemma longest_boundaries_active (m : gmap Z Z) :
  (∀ x, Scan.longestStreakStart (Scan.run m (sortedDates m)) = Some x →
        active m x) ∧
  (∀ x, Scan.longestStreakEnd (Scan.run m (sortedDates m)) = Some x →
        active m x).
Proof.
  destruct (scan_dates_inv_run m (sortedDates m)) as (Hl0 & Hlz & _).
  destruct (run_inv_run m (sortedDates m)) as (_ & _ & _ & _ & Hbest).
  assert (∀ x, Scan.longestStreakStart (Scan.run m (sortedDates m)) = Some x ∨
               Scan.longestStreakEnd (Scan.run m (sortedDates m)) = Some x →
               0 < Scan.longestStreak (Scan.run m (sortedDates m))) as Hpos.
  { intros x Hx.
    destruct (decide (Scan.longestStreak (Scan.run m (sortedDates m)) = 0))
      as [H0|]; [|lia].
    destruct (Hlz H0) as [Hs He]. rewrite Hs, He in Hx. by destruct Hx. }
  split; intros x Hx.
  - destruct (Hbest (Hpos x (or_introl Hx))) as (st & e & Hs & _ & Hlen & Hrun).
    rewrite Hs in Hx. injection Hx as <-. apply Hrun.
    specialize (Hpos st (or_introl Hs)). lia.
  - destruct (Hbest (Hpos x (or_intror Hx))) as (st & e & _ & He & Hlen & Hrun).
    rewrite He in Hx. injection Hx as <-. apply Hrun.
    specialize (Hpos e (or_intror He)). lia.
Qed.

(** X22.  In both versions every boundary date that is reported (start or
    end of the current or of the longest streak) is a date of the series
    with a positive count, and none is before the first contribution. *)
Theorem boundaries_are_contributions (m : gmap Z Z) (now : Z) :
  ∃ d, calculateStreaksData m now = Some d ∧
       boundaries_ok m d ∧
       boundaries_ok m (Legacy.calculateStreaksData m now).
Proof.
  destruct (longest_boundaries_active m) as [Hls Hle].
  destruct (contiguous_run_current m now) as (d & Hd & Hrun).
  destruct (calculateStreaksData_Some m now) as (w & Hw & Heq).
  exists d. split; [done|].
  rewrite Heq in Hd. injection Hd as <-.
  assert ((∀ x, Walk.currentStreakStart w = Some x → active m x) ∧
          (∀ x, Walk.currentStreakEnd w = Some x → active m x)) as [Hcs Hce].
  { destruct (startDate m (utcToday now) (utcYesterday now)) as [a|];
      simpl in Hrun, Hw.
    - destruct Hrun as (Hpos & Hall & _ & Hs & He).
      split; intros x Hx; [rewrite Hs in Hx | rewrite He in Hx];
        injection Hx as <-; apply Hall; lia.
    - injection Hw as <-. by split. }
  destruct (legacy_active_inv m (utcToday now) (reverse (sortedDates m))
              Legacy.init) as [Hlcs Hlce]; [done | done |].
  split; (split; [|split; [|split]]); by apply boundary_ok_active.
Qed.
